(** * model_serializer: projection of Go structs onto generic maps

    A shallow embedding of [model_serializer.go] together with the part of
    Go's [reflect] package the file calls, and the properties of
    [Serialize], [SerializeList], [FilterFields] and [FilterMapFields]
    that the specification states. *)

From stdpp Require Import gmap strings list fin_maps.

Set Warnings "-register-all".

(** ** Outcomes

    The package reports every violation by panicking.  A call either
    returns a value or unwinds with what [panic] was given. *)

Inductive res (E A : Type) : Type :=
| Ok (a : A)
| Panic (e : E).
Arguments Ok {E A} a.
Arguments Panic {E A} e.

Definition res_bind {E A B} (f : A → res E B) (m : res E A) : res E B :=
  match m with
  | Ok a => f a
  | Panic e => Panic e
  end.

#[global] Instance res_mbind {E} : MBind (res E) := @res_bind E.
#[global] Instance res_mret {E} : MRet (res E) := @Ok E.

Definition returns {E A} (m : res E A) : Prop := ∃ a, m = Ok a.
Definition panics {E A} (m : res E A) : Prop := ∃ e, m = Panic e.

(** [for _, x := range l { body }], threading the variables the body
    assigns, and [for i := 0; i < n; i++ { body }]. *)
Fixpoint foldM {E A B} (body : B → A → res E A) (l : list B) (a : A)
  : res E A :=
  match l with
  | [] => Ok a
  | x :: l' => a' ← body x a; foldM body l' a'
  end.

Definition for_range {E A} (n : nat) (body : nat → A → res E A) (a : A)
  : res E A :=
  foldM body (seq 0 n) a.

(** The double quote, for messages formatted with [%s] between quotes. *)
Definition dquote : string :=
  String.String (Ascii.ascii_of_nat 34) String.EmptyString.

(** ** The reflect package *)

Module reflect.

(** [reflect.Kind], in the order of its declaration. *)
Inductive Kind : Set :=
| Invalid | Bool
| Int | Int8 | Int16 | Int32 | Int64
| Uint | Uint8 | Uint16 | Uint32 | Uint64 | Uintptr
| Float32 | Float64 | Complex64 | Complex128
| Array | Chan | Func | Interface | Map | Ptr | Slice | String | Struct
| UnsafePointer.

#[global] Instance Kind_eq_dec : EqDecision Kind.
Proof. solve_decision. Defined.

(** What a panic carries. *)
Inductive panic : Type :=
| PanicString (msg : string)
    (* panic(msg), raised by model_serializer itself *)
| ValueError (Method : string) (k : Kind)
    (* *reflect.ValueError: a Value method called on the wrong kind *)
| ReflectPanic (msg : string)
    (* a panic reflect raises with a plain string *)
| TypeAssertionError
    (* *runtime.TypeAssertionError, from a failed x.(T) *)
| NilDereference
    (* method call through a nil reflect.Type *)
| InvalidMemory.
    (* a pointer outside the store; cannot arise in a Go program *)

(** The kinds of numbers; their values are kept as integers (the bit
    pattern, for floating point and complex numbers). *)
Inductive NumKind : Set :=
| NInt | NInt8 | NInt16 | NInt32 | NInt64
| NUint | NUint8 | NUint16 | NUint32 | NUint64 | NUintptr
| NFloat32 | NFloat64 | NComplex64 | NComplex128.

Definition numKind (k : NumKind) : Kind :=
  match k with
  | NInt => Int | NInt8 => Int8 | NInt16 => Int16 | NInt32 => Int32
  | NInt64 => Int64
  | NUint => Uint | NUint8 => Uint8 | NUint16 => Uint16
  | NUint32 => Uint32 | NUint64 => Uint64 | NUintptr => Uintptr
  | NFloat32 => Float32 | NFloat64 => Float64
  | NComplex64 => Complex64 | NComplex128 => Complex128
  end.

(** A pointer is the address of an allocated object, or of a part of
    one: [path] descends through struct fields and array elements, as
    [&obj.F] and [Value.Addr] of a field do. *)
Abbreviation loc := nat.
Record pointer := Pointer { base : loc; path : list nat }.

(** A struct tag as the conventional [key:"value"] pairs, in the order
    they are written. *)
Definition StructTag := list (string * string).

(** The declaration of a struct field.  [declPkgPath] is empty for an
    exported (upper case) name, as [StructField.PkgPath] is. *)
Record FieldDecl := Decl {
  declName : string;
  declPkgPath : string;
  declTag : StructTag
}.

(** Go values as they lie in memory.  A value tells its own static
    kind: a variable, field or element of interface type holds a
    [VIface], every other one the value directly.  Embedded (anonymous)
    struct fields are not modelled; maps are keyed by strings; slices
    and maps are kept by value, the code read here never relying on two
    of them sharing storage. *)
Inductive value : Type :=
| VBool (b : bool)
| VNum (k : NumKind) (n : Z)
| VString (s : string)
| VChan (c : option nat)            (* nil, or a channel and its queue length *)
| VFunc (f : option positive)       (* nil, or some code *)
| VUnsafePointer (p : option positive)
| VPtr (p : option pointer)         (* nil, or an address *)
| VIface (d : option value)         (* nil, or the dynamic value *)
| VSlice (s : option (list value))  (* nil, or the elements *)
| VArray (a : list value)
| VMap (m : option (gmap string value))
| VStruct (fs : list (FieldDecl * value)).

(** [interface{}]: nil, or a dynamic value. *)
Abbreviation iface := (option value).

Definition kindOf (v : value) : Kind :=
  match v with
  | VBool _ => Bool
  | VNum k _ => numKind k
  | VString _ => String
  | VChan _ => Chan
  | VFunc _ => Func
  | VUnsafePointer _ => UnsafePointer
  | VPtr _ => Ptr
  | VIface _ => Interface
  | VSlice _ => Slice
  | VArray _ => Array
  | VMap _ => Map
  | VStruct _ => Struct
  end.

(** Converting to [interface{}] keeps the dynamic value of an interface
    and boxes anything else. *)
Fixpoint dynamic (v : value) : iface :=
  match v with
  | VIface None => None
  | VIface (Some d) => dynamic d
  | _ => Some v
  end.

(** The store. *)
Abbreviation heap := (gmap loc value).

Fixpoint subvalue (v : value) (p : list nat) {struct p} : option value :=
  match p with
  | [] => Some v
  | i :: p' =>
      match v with
      | VStruct fs => f ← fs !! i; subvalue f.2 p'
      | VArray a => x ← a !! i; subvalue x p'
      | _ => None
      end
  end.

Fixpoint update (v : value) (p : list nat) (new : value) {struct p}
  : value :=
  match p with
  | [] => new
  | i :: p' =>
      match v with
      | VStruct fs => VStruct (alter (λ f, (f.1, update f.2 p' new)) i fs)
      | VArray a => VArray (alter (λ x, update x p' new) i a)
      | _ => v
      end
  end.

Definition load (h : heap) (p : pointer) : option value :=
  v ← h !! base p; subvalue v (path p).

Definition store (h : heap) (p : pointer) (new : value) : heap :=
  alter (λ v, update v (path p) new) (base p) h.

Definition sub (p : pointer) (i : nat) : pointer :=
  Pointer (base p) (path p ++ [i]).

(** The model has no separate syntax of types: a value carries its
    shape, so a [reflect.Type] is given by a value of that type, of
    which only the shape is read (kinds, field declarations, array
    lengths). *)
Abbreviation rtype := value.

(** [reflect.StructField]; [Type_], its field Type, is nil in the zero
    StructField. *)
Record StructField := {
  Name : string;
  PkgPath : string;
  Type_ : option rtype;
  Tag : StructTag
}.

Definition zeroStructField : StructField :=
  {| Name := ""; PkgPath := ""; Type_ := None; Tag := [] |}.

Definition structField (f : FieldDecl * value) : StructField :=
  {| Name := declName f.1; PkgPath := declPkgPath f.1;
     Type_ := Some f.2; Tag := declTag f.1 |}.

Definition IsExported (d : FieldDecl) : bool :=
  bool_decide (declPkgPath d = "").

(** [StructTag.Lookup]: the value of the first pair with this key. *)
Fixpoint Lookup (tag : StructTag) (key : string) : option string :=
  match tag with
  | [] => None
  | (k, v) :: tag' => if String.eqb k key then Some v else Lookup tag' key
  end.

(** [reflect.Value]: the value ([None] in the zero Value), whether it
    was reached through an unexported field, and its address when it
    has one. *)
Record Value := mkValue {
  data : option value;
  flagRO : bool;
  flagAddr : option pointer
}.

Definition zeroValue : Value := mkValue None false None.

Definition ValueOf (i : iface) : Value := mkValue (i ≫= dynamic) false None.

Definition Value_Kind (v : Value) : Kind :=
  match data v with
  | None => Invalid
  | Some x => kindOf x
  end.

Definition isNone {A} (o : option A) : bool :=
  match o with
  | None => true
  | Some _ => false
  end.

(** [Value.IsNil]: the argument must be a chan, func, interface, map,
    pointer or slice; otherwise it panics. *)
Definition IsNil (v : Value) : res panic bool :=
  match data v with
  | Some (VChan c) => Ok (isNone c)
  | Some (VFunc f) => Ok (isNone f)
  | Some (VUnsafePointer p) => Ok (isNone p)
  | Some (VPtr p) => Ok (isNone p)
  | Some (VIface d) => Ok (isNone d)
  | Some (VSlice s) => Ok (isNone s)
  | Some (VMap m) => Ok (isNone m)
  | _ => Panic (ValueError "reflect.Value.IsNil" (Value_Kind v))
  end.

(** [Value.Elem]: the value an interface holds or a pointer points to;
    the zero Value for a nil one; a panic on any other kind. *)
Definition Elem (h : heap) (v : Value) : res panic Value :=
  match data v with
  | Some (VIface d) => Ok (mkValue (d ≫= dynamic) (flagRO v) None)
  | Some (VPtr None) => Ok zeroValue
  | Some (VPtr (Some p)) =>
      match load h p with
      | Some x => Ok (mkValue (Some x) (flagRO v) (Some p))
      | None => Panic InvalidMemory
      end
  | _ => Panic (ValueError "reflect.Value.Elem" (Value_Kind v))
  end.

Definition Value_Type (v : Value) : res panic rtype :=
  match data v with
  | Some x => Ok x
  | None => Panic (ValueError "reflect.Value.Type" Invalid)
  end.

Definition Type_Kind (t : option rtype) : res panic Kind :=
  match t with
  | Some x => Ok (kindOf x)
  | None => Panic NilDereference
  end.

Definition findField (name : string) (fs : list (FieldDecl * value))
  : option (nat * (FieldDecl * value)) :=
  list_find (λ f, declName f.1 = name) fs.

(** [Type.FieldByName]: the field and true, or the zero StructField and
    false; a panic on a type that is not a struct (Go appends the name
    of the type to the message). *)
Definition Type_FieldByName (t : rtype) (name : string)
  : res panic (StructField * bool) :=
  match t with
  | VStruct fs =>
      match findField name fs with
      | Some (_, f) => Ok (structField f, true)
      | None => Ok (zeroStructField, false)
      end
  | _ => Panic (ReflectPanic "reflect: FieldByName of non-struct type")
  end.

Definition Type_Field (t : rtype) (i : nat) : res panic StructField :=
  match t with
  | VStruct fs =>
      match fs !! i with
      | Some f => Ok (structField f)
      | None => Panic (ReflectPanic "reflect: Field index out of bounds")
      end
  | _ => Panic (ReflectPanic "reflect: Field of non-struct type")
  end.

Definition NumField (v : Value) : res panic nat :=
  match data v with
  | Some (VStruct fs) => Ok (length fs)
  | _ => Panic (ValueError "reflect.Value.NumField" (Value_Kind v))
  end.

(** The Value of field [i]: read-only as soon as the struct is, or the
    field is unexported; addressable when the struct is. *)
Definition fieldValue (v : Value) (i : nat) (f : FieldDecl * value)
  : Value :=
  mkValue (Some f.2) (flagRO v || negb (IsExported f.1))
          ((λ p, sub p i) <$> flagAddr v).

Definition Field (v : Value) (i : nat) : res panic Value :=
  match data v with
  | Some (VStruct fs) =>
      match fs !! i with
      | Some f => Ok (fieldValue v i f)
      | None => Panic (ReflectPanic "reflect: Field index out of range")
      end
  | _ => Panic (ValueError "reflect.Value.Field" (Value_Kind v))
  end.

Definition Value_FieldByName (v : Value) (name : string)
  : res panic Value :=
  match data v with
  | Some (VStruct fs) =>
      match findField name fs with
      | Some (i, f) => Ok (fieldValue v i f)
      | None => Ok zeroValue
      end
  | _ => Panic (ValueError "reflect.Value.FieldByName" (Value_Kind v))
  end.

Definition unexportedInterface : string :=
  "reflect.Value.Interface: cannot return value obtained from unexported field or method".

(** [Value.Interface]: it panics if the Value was obtained by accessing
    unexported struct fields. *)
Definition Value_Interface (v : Value) : res panic iface :=
  match data v with
  | None => Panic (ValueError "reflect.Value.Interface" Invalid)
  | Some x =>
      if flagRO v
      then Panic (ReflectPanic unexportedInterface)
      else Ok (dynamic x)
  end.

(** [Value.Addr]: a pointer to an addressable value. *)
Definition Addr (v : Value) : res panic Value :=
  match flagAddr v with
  | Some p => Ok (mkValue (Some (VPtr (Some p))) (flagRO v) None)
  | None => Panic (ReflectPanic "reflect.Value.Addr of unaddressable value")
  end.

(** [Value.Len], as documented: it panics if the kind is not Array,
    Chan, Map, Slice or String. *)
Definition Len (v : Value) : res panic nat :=
  match data v with
  | Some (VArray a) => Ok (length a)
  | Some (VSlice s) => Ok (length (default [] s))
  | Some (VString s) => Ok (String.length s)
  | Some (VMap m) => Ok (size (default ∅ m))
  | Some (VChan c) => Ok (default 0 c)
  | _ => Panic (ValueError "reflect.Value.Len" (Value_Kind v))
  end.

Definition indexOutOfRange : panic :=
  ReflectPanic "reflect: index out of range".

(** [Value.Index]: an element of an array or slice, or a byte of a
    string.  (An element of a slice is addressable in Go; kept by value
    here, it gets no address.) *)
Definition Index (v : Value) (i : nat) : res panic Value :=
  match data v with
  | Some (VArray a) =>
      match a !! i with
      | Some x =>
          Ok (mkValue (Some x) (flagRO v) ((λ p, sub p i) <$> flagAddr v))
      | None => Panic indexOutOfRange
      end
  | Some (VSlice s) =>
      match default [] s !! i with
      | Some x => Ok (mkValue (Some x) (flagRO v) None)
      | None => Panic indexOutOfRange
      end
  | Some (VString s) =>
      match String.get i s with
      | Some c =>
          Ok (mkValue (Some (VNum NUint8 (Z.of_nat (Ascii.nat_of_ascii c))))
                      (flagRO v) None)
      | None => Panic indexOutOfRange
      end
  | _ => Panic (ValueError "reflect.Value.Index" (Value_Kind v))
  end.

(** [reflect.Zero]: the zero value of a type. *)
Fixpoint Zero (t : rtype) : value :=
  match t with
  | VBool _ => VBool false
  | VNum k _ => VNum k 0
  | VString _ => VString ""
  | VChan _ => VChan None
  | VFunc _ => VFunc None
  | VUnsafePointer _ => VUnsafePointer None
  | VPtr _ => VPtr None
  | VIface _ => VIface None
  | VSlice _ => VSlice None
  | VArray a => VArray (map Zero a)
  | VMap _ => VMap None
  | VStruct fs => VStruct (map (λ f, (f.1, Zero f.2)) fs)
  end.

Definition unexportedSet : string :=
  "reflect: reflect.Value.Set using value obtained using unexported field".

(** [Value.Set]: it panics unless the Value is addressable and was not
    obtained by the use of unexported struct fields. *)
Definition Set_ (h : heap) (v : Value) (x : value) : res panic heap :=
  match data v with
  | None => Panic (ValueError "reflect.Value.Set" Invalid)
  | Some _ =>
      if flagRO v
      then Panic (ReflectPanic unexportedSet)
      else match flagAddr v with
           | None => Panic (ReflectPanic
               "reflect: reflect.Value.Set using unaddressable value")
           | Some p => Ok (store h p x)
           end
  end.

End reflect.

(** ** The package model_serializer *)

Abbreviation panic := reflect.panic.
Abbreviation iface := reflect.iface.
Abbreviation heap := reflect.heap.

(** [map[string]interface{}], the result of a projection.  A nil map and
    an empty one have the same content. *)
Abbreviation ProjectionResult := (gmap string reflect.iface).

(** A [map[string]interface{}] and a [[]interface{}] as values. *)
Definition MapValue (m : ProjectionResult) : reflect.value :=
  reflect.VMap (Some (reflect.VIface <$> m)).

Definition SliceValue (l : list iface) : reflect.value :=
  reflect.VSlice (Some (reflect.VIface <$> l)).

(** [type FieldSerializer func(model interface{}) (fieldName string, value
    interface{})]: a callback, taken to be there (not nil), to return,
    and to read the store and the model without changing them. *)
Definition FieldSerializer : Type := heap → iface → string * iface.

(** An element of [fields []interface{}], by its dynamic type: [string],
    [FieldSerializer], [map[string][]interface{}] (its pairs in the order
    [range] yields them in this run, one pair per key), or any other type,
    of which only the kind is read ([Invalid] for a nil element). *)
Inductive fieldSpec : Type :=
| SpecString (name : string)
| SpecFunc (f : FieldSerializer)
| SpecMap (m : list (string * list fieldSpec))
| SpecOther (k : reflect.Kind).

Fixpoint containsField (field : string) (fields : list string) : bool :=
  match fields with
  | [] => false
  | v :: fields' =>
      if String.eqb field v then true else containsField field fields'
  end.

Definition isNilInterface (v : iface) : res panic bool :=
  if reflect.isNone (v ≫= reflect.dynamic) then Ok true
  else if bool_decide (reflect.Value_Kind (reflect.ValueOf v) = reflect.Ptr)
       then reflect.IsNil (reflect.ValueOf v)
       else Ok false.

Definition noJsonTag (name : string) : string :=
  "Field " +:+ dquote +:+ name +:+ dquote +:+ " has no json tag".

Definition getSerializedName (structField : reflect.StructField)
  : res panic string :=
  match reflect.Lookup (reflect.Tag structField) "json" with
  | None => Panic (reflect.PanicString (noJsonTag (reflect.Name structField)))
  | Some val => Ok val
  end.

Definition serializeStrField (structValue : reflect.Value)
    (structType : reflect.rtype) (fieldName : string)
    (targetMap : ProjectionResult) : res panic ProjectionResult :=
  fieldValue ← reflect.Value_FieldByName structValue fieldName;
  ft ← reflect.Type_FieldByName structType fieldName;
  serializedName ← getSerializedName ft.1;
  x ← reflect.Value_Interface fieldValue;
  Ok (<[serializedName := x]> targetMap).

Definition undefinedFunc : string := "Undefined func type for serializer.".
Definition undefinedType : string :=
  "Undefined type for serializer. Need to implement it".

Section Serialize.
Context (h : heap).

(** [serializeArrayField]; [Serialize] stands for the recursive call
    [Serialize(elemInterface, fields)]. *)
Definition serializeArrayField
    (Serialize : iface → res panic ProjectionResult)
    (fieldValue : reflect.Value) (fieldName : string)
    (targetMap : ProjectionResult) : res panic ProjectionResult :=
  n ← reflect.Len fieldValue;
  serializedContainer ←
    for_range n (λ i (c : list iface),
      e ← reflect.Index fieldValue i;
      elemInterface ← reflect.Value_Interface e;
      r ← Serialize elemInterface;
      Ok (<[i := Some (MapValue r)]> c)) (replicate n None);
  Ok (<[fieldName := Some (SliceValue serializedContainer)]> targetMap).

(** The body of [Serialize], the handling of one element of [fields]
    left open. *)
Definition SerializeBody
    (step : fieldSpec → iface → reflect.Value → reflect.rtype →
            ProjectionResult → res panic ProjectionResult)
    (model : iface) (fields : list fieldSpec)
  : res panic ProjectionResult :=
  let result : ProjectionResult := ∅ in
  let val := reflect.ValueOf model in
  isNil ← reflect.IsNil val;
  if isNil : bool then Ok result else
  elem ← reflect.Elem h val;
  modelType ← reflect.Value_Type elem;
  foldM (λ name result, step name model elem modelType result) fields result.

(** One round of [for _, name := range fields]. *)
Fixpoint serializeEntry (name : fieldSpec) (model : iface)
    (elem : reflect.Value) (modelType : reflect.rtype)
    (result : ProjectionResult) {struct name}
  : res panic ProjectionResult :=
  match name with
  | SpecString s => serializeStrField elem modelType s result
  | SpecFunc fieldSerializer =>
      let '(fieldName, value) := fieldSerializer h model in
      Ok (<[fieldName := value]> result)
  | SpecOther reflect.String =>
      (* name.(string) on a named string type *)
      Panic reflect.TypeAssertionError
  | SpecOther reflect.Func => Panic (reflect.PanicString undefinedFunc)
  | SpecOther _ =>
      (* name.(map[string][]interface{}) *)
      Panic reflect.TypeAssertionError
  | SpecMap m =>
      (fix range (m : list (string * list fieldSpec))
           (result : ProjectionResult) {struct m} :=
         match m with
         | [] => Ok result
         | (fieldNameStr, mapFields) :: m' =>
             ft ← reflect.Type_FieldByName modelType fieldNameStr;
             let fieldType := ft.1 in
             serializedName ← getSerializedName fieldType;
             fieldValue ← reflect.Value_FieldByName elem fieldNameStr;
             k ← reflect.Type_Kind (reflect.Type_ fieldType);
             result' ←
               match k with
               | reflect.Slice | reflect.Array =>
                   serializeArrayField
                     (λ x, SerializeBody serializeEntry x mapFields)
                     fieldValue serializedName result
               | reflect.Ptr =>
                   x ← reflect.Value_Interface fieldValue;
                   r ← SerializeBody serializeEntry x mapFields;
                   Ok (<[serializedName := Some (MapValue r)]> result)
               | reflect.Struct =>
                   a ← reflect.Addr fieldValue;
                   x ← reflect.Value_Interface a;
                   r ← SerializeBody serializeEntry x mapFields;
                   Ok (<[serializedName := Some (MapValue r)]> result)
               | _ => Panic (reflect.PanicString undefinedType)
               end;
             range m' result'
         end) m result
  end.

Definition Serialize (model : iface) (fields : list fieldSpec)
  : res panic ProjectionResult :=
  SerializeBody serializeEntry model fields.

(** [SerializeList]; the result is a [[]map[string]interface{}]. *)
Definition SerializeList (models : iface) (fields : list fieldSpec)
  : res panic (list ProjectionResult) :=
  let slice := reflect.ValueOf models in
  n ← reflect.Len slice;
  for_range n (λ i (res : list ProjectionResult),
    e ← reflect.Index slice i;
    x ← reflect.Value_Interface e;
    r ← Serialize x fields;
    Ok (<[i := r]> res)) (replicate n ∅).

End Serialize.

(** [FilterFields] writes through [model]: it yields the store it leaves
    behind, also when it panics half way, and how it ended.  [modelValue]
    is a window on the record, so each round reads the store as the rounds
    before it left it. *)
Definition filterField (model : iface) (fields : list string) (i : nat)
    (h : heap) : res panic heap :=
  modelValue ← reflect.Elem h (reflect.ValueOf model);
  modelType ← reflect.Value_Type modelValue;
  field ← reflect.Field modelValue i;
  isNil ← reflect.IsNil field;
  if isNil : bool then Ok h else
  sf ← reflect.Type_Field modelType i;
  if containsField (reflect.Name sf) fields then Ok h else
  t ← reflect.Value_Type field;
  reflect.Set_ h field (reflect.Zero t).

Fixpoint filterLoop (model : iface) (fields : list string) (idx : list nat)
    (h : heap) : heap * res panic () :=
  match idx with
  | [] => (h, Ok ())
  | i :: idx' =>
      match filterField model fields i h with
      | Ok h' => filterLoop model fields idx' h'
      | Panic e => (h, Panic e)
      end
  end.

Definition FilterFields (h : heap) (model : iface) (fields : list string)
  : heap * res panic () :=
  match
    modelValue ← reflect.Elem h (reflect.ValueOf model);
    _ ← reflect.Value_Type modelValue;
    reflect.NumField modelValue
  with
  | Panic e => (h, Panic e)
  | Ok fieldsCount => filterLoop model fields (seq 0 fieldsCount) h
  end.

(** [FilterMapFields] changes the map it is given: it yields the content
    the map is left with.  [range] visits every entry of the map once, in
    an order of its own; only the entry being visited is ever deleted. *)
Definition FilterMapFields (mapData : ProjectionResult)
    (fields : list string) : res panic ProjectionResult :=
  foldM (λ (kv : string * iface) (mapData : ProjectionResult),
    if negb (containsField kv.1 fields) then Ok (delete kv.1 mapData) else
    isNil ← isNilInterface kv.2;
    if isNil : bool then Ok (delete kv.1 mapData) else Ok mapData)
    (map_to_list mapData) mapData.

(** ** Vocabulary of the properties *)

(** A record handle: a pointer to the record; and the nil handle. *)
Definition handle (p : reflect.pointer) : iface :=
  Some (reflect.VPtr (Some p)).

Definition nilHandle : iface := Some (reflect.VPtr None).

(** The kinds [Value.IsNil] accepts. *)
Definition nilableKind (k : reflect.Kind) : bool :=
  match k with
  | reflect.Chan | reflect.Func | reflect.Interface | reflect.Map
  | reflect.Ptr | reflect.Slice | reflect.UnsafePointer => true
  | _ => false
  end.

(** The elements of a sequence: a slice (none in a nil one) or an array. *)
Definition elements (v : reflect.value) : option (list reflect.value) :=
  match v with
  | reflect.VSlice s => Some (default [] s)
  | reflect.VArray a => Some a
  | _ => None
  end.

(** A null reference held in an [interface{}]: the nil interface or a nil
    pointer. *)
Definition nullReference (v : iface) : Prop :=
  v ≫= reflect.dynamic = None ∨
  v ≫= reflect.dynamic = Some (reflect.VPtr None).

(** The field of a record a name stands for, with its place. *)
Definition fieldNamed (fs : list (reflect.FieldDecl * reflect.value))
    (name : string) (i : nat) (d : reflect.FieldDecl) (v : reflect.value)
  : Prop :=
  reflect.findField name fs = Some (i, (d, v)).

(** The wire name of a field: the value of its json tag. *)
Definition wireName (d : reflect.FieldDecl) : option string :=
  reflect.Lookup (reflect.declTag d) "json".

(** The Value of a record reached through its handle. *)
Definition recordValue (p : reflect.pointer)
    (fs : list (reflect.FieldDecl * reflect.value)) : reflect.Value :=
  reflect.mkValue (Some (reflect.VStruct fs)) false (Some p).

(** What a leaf entry contributes: the wire name of the field it names
    and the field's value as an [interface{}]. *)
Definition leafPair (fs : list (reflect.FieldDecl * reflect.value))
    (name : string) : option (string * iface) :=
  f ← reflect.findField name fs;
  w ← wireName f.2.1;
  Some (w, reflect.dynamic f.2.2).

(** The map a run of leaf entries leaves, later entries overwriting
    earlier ones. *)
Definition leafResult (fs : list (reflect.FieldDecl * reflect.value))
    (names : list string) (r0 : ProjectionResult) : ProjectionResult :=
  foldl (λ r name,
           from_option (λ kv, <[kv.1 := kv.2]> r) r (leafPair fs name))
        r0 names.

(** A leaf entry [Serialize] can read: it names a field of the record
    that is exported and has a json tag. *)
Definition readableLeaf (fs : list (reflect.FieldDecl * reflect.value))
    (name : string) : Prop :=
  ∃ i d v w, fieldNamed fs name i d v ∧ wireName d = Some w ∧
             reflect.IsExported d = true.

(** [f] on every element in order, up to the first panic. *)
Fixpoint mapM_res {E A B} (f : A → res E B) (l : list A) : res E (list B) :=
  match l with
  | [] => Ok []
  | x :: l' => b ← f x; bs ← mapM_res f l'; Ok (b :: bs)
  end.

(** The shapes of an entry the specification recognises: a field name, a
    computed-field callable, a mapping with a single key. *)
Definition recognizedShape (e : fieldSpec) : bool :=
  match e with
  | SpecString _ | SpecFunc _ | SpecMap [_] => true
  | _ => false
  end.

(** The panics by which an entry of no known type is refused: the one
    [Serialize] raises itself on a func, the failed type assertion on
    anything else. *)
Definition unknownSpecEntry (k : reflect.Kind) : panic :=
  match k with
  | reflect.Func => reflect.PanicString undefinedFunc
  | _ => reflect.TypeAssertionError
  end.

(** The kinds the switch of [Serialize] sends to the recursion. *)
Definition nestedKind (k : reflect.Kind) : bool :=
  match k with
  | reflect.Slice | reflect.Array | reflect.Ptr | reflect.Struct => true
  | _ => false
  end.

(** The declared types the specification allows under a nested entry: a
    pointer to a record (a nil pointer counts, its type not being kept),
    a record, a sequence of pointers to records. *)
Definition pointerToRecord (h : heap) (v : reflect.value) : Prop :=
  v = reflect.VPtr None ∨
  ∃ q fs, v = reflect.VPtr (Some q) ∧
          reflect.load h q = Some (reflect.VStruct fs).

Definition supportedNested (h : heap) (v : reflect.value) : Prop :=
  pointerToRecord h v ∨ (∃ fs, v = reflect.VStruct fs) ∨
  ∃ R, elements v = Some R ∧ Forall (pointerToRecord h) R.

(** The value a nested entry stores for a sequence: a [[]interface{}] of
    maps. *)
Definition sequenceValue (ms : list ProjectionResult) : iface :=
  Some (SliceValue ((λ m, Some (MapValue m)) <$> ms)).

(** Whether [FilterMapFields] deletes an entry: its key is not listed,
    or its value is a null reference. *)
Definition isNull (v : iface) : bool :=
  match v ≫= reflect.dynamic with
  | None | Some (reflect.VPtr None) => true
  | _ => false
  end.

Definition deleted (fields : list string) (kv : string * iface) : bool :=
  negb (containsField kv.1 fields) || isNull kv.2.

(** What [FilterFields] makes of the fields of a record, taken in order,
    and how it ends: a field of a kind [IsNil] refuses, or one to reset
    that is unexported, stops it with the fields from there on
    untouched. *)
Fixpoint filtered (fields : list string)
    (fs : list (reflect.FieldDecl * reflect.value))
  : list (reflect.FieldDecl * reflect.value) * res panic () :=
  match fs with
  | [] => ([], Ok ())
  | (d, v) :: fs' =>
      match reflect.IsNil (reflect.mkValue (Some v) false None) with
      | Panic e => ((d, v) :: fs', Panic e)
      | Ok true => ((d, v) :: (filtered fields fs').1, (filtered fields fs').2)
      | Ok false =>
          if containsField (reflect.declName d) fields
          then ((d, v) :: (filtered fields fs').1, (filtered fields fs').2)
          else if reflect.IsExported d
          then ((d, reflect.Zero v) :: (filtered fields fs').1,
                (filtered fields fs').2)
          else ((d, v) :: fs',
                Panic (reflect.ReflectPanic reflect.unexportedSet))
      end
  end.

(** A field [FilterFields] can reset if it has to: either it need not
    (it is nil already, or listed), or it is exported. *)
Definition resettable (fields : list string)
    (f : reflect.FieldDecl * reflect.value) : Prop :=
  reflect.IsNil (reflect.mkValue (Some f.2) false None) = Ok false →
  reflect.declName f.1 ∉ fields →
  reflect.IsExported f.1 = true.


(** A mapping with several keys, taken apart: one mapping for each key,
    in the order [range] yields them. *)
Definition singleKeys (m : list (string * list fieldSpec)) : list fieldSpec :=
  (λ kv, SpecMap [kv]) <$> m.

(** The number of keys an entry can add to the result: one for a leaf or
    a computed entry, one for each key of a mapping. *)
Definition entryKeys (e : fieldSpec) : nat :=
  match e with
  | SpecString _ | SpecFunc _ => 1
  | SpecMap m => length m
  | SpecOther _ => 0
  end.

(** ** Records of the package's tests, and a few more *)

Definition json (w : string) : reflect.StructTag := [("json", w)].

(** [&obj], the object allocated at [l]. *)
Definition addr (l : reflect.loc) : reflect.pointer := reflect.Pointer l [].

(** [testStruct{"foo", 42}] of [TestSerializeFullStruct]. *)
Definition fullStruct : list (reflect.FieldDecl * reflect.value) :=
  [(reflect.Decl "Field1" "" (json "field1"), reflect.VString "foo");
   (reflect.Decl "Field2" "" (json "field2"), reflect.VNum reflect.NInt 42)].

(** [testStruct{"foo"}] of [TestSerializeFieldWithoutTag]. *)
Definition untaggedStruct : list (reflect.FieldDecl * reflect.value) :=
  [(reflect.Decl "Field1" "" [], reflect.VString "foo")].

(** [struct { field1 string `json:"field1"` }{"foo"}], declared in a
    package [main]: the field is unexported. *)
Definition unexportedStruct : list (reflect.FieldDecl * reflect.value) :=
  [(reflect.Decl "field1" "main" (json "field1"), reflect.VString "foo")].

(** [testStruct{}] of [TestSerializeFieldWithUnexpectedPassedField], and
    the same without the tag. *)
Definition dictStruct : list (reflect.FieldDecl * reflect.value) :=
  [(reflect.Decl "Field1" "" (json "field"), reflect.VMap None)].

Definition untaggedDictStruct : list (reflect.FieldDecl * reflect.value) :=
  [(reflect.Decl "Field1" "" [], reflect.VMap None)].

(** [struct { Field1 *int `json:"field"` }], the pointer to the object
    at 2. *)
Definition intPtrStruct : list (reflect.FieldDecl * reflect.value) :=
  [(reflect.Decl "Field1" "" (json "field"), reflect.VPtr (Some (addr 2)))].

Definition intPtrHeap : heap :=
  {[ 1 := reflect.VStruct intPtrStruct; 2 := reflect.VNum reflect.NInt 7 ]}.

(** [nested{b}] of the tests on nested records. *)
Definition nested (b : bool) : reflect.value :=
  reflect.VStruct
    [(reflect.Decl "FieldNested" "" (json "fieldNested"), reflect.VBool b)].

(** [testStruct{[2]*nested{{true}, {false}}}] of
    [TestSerializeFieldWithArrayOfStructs], the elements at 2 and 3. *)
Definition arrayStruct : list (reflect.FieldDecl * reflect.value) :=
  [(reflect.Decl "Field1" "" (json "field"),
    reflect.VArray [reflect.VPtr (Some (addr 2));
                    reflect.VPtr (Some (addr 3))])].

Definition arrayHeap : heap :=
  {[ 1 := reflect.VStruct arrayStruct; 2 := nested true; 3 := nested false ]}.

(** The same with a slice under an unexported name. *)
Definition unexportedSliceStruct : list (reflect.FieldDecl * reflect.value) :=
  [(reflect.Decl "field1" "main" (json "field"),
    reflect.VSlice (Some [reflect.VPtr (Some (addr 2));
                          reflect.VPtr (Some (addr 3))]))].

Definition unexportedSliceHeap : heap :=
  {[ 1 := reflect.VStruct unexportedSliceStruct;
     2 := nested true; 3 := nested false ]}.

(** [testStruct{&field1V, &field2V}] of [TestFilterFields], the two
    variables at 2 and 3. *)
Definition optionalStruct : list (reflect.FieldDecl * reflect.value) :=
  [(reflect.Decl "Field1" "" (json "field1"), reflect.VPtr (Some (addr 2)));
   (reflect.Decl "Field2" "" (json "field2"), reflect.VPtr (Some (addr 3)))].

Definition optionalHeap : heap :=
  {[ 1 := reflect.VStruct optionalStruct;
     2 := reflect.VString "foo"; 3 := reflect.VNum reflect.NInt 42 ]}.

(** [struct { Count int; Field1 *string }{1, &field1V}]. *)
Definition countedStruct : list (reflect.FieldDecl * reflect.value) :=
  [(reflect.Decl "Count" "" (json "count"), reflect.VNum reflect.NInt 1);
   (reflect.Decl "Field1" "" (json "field1"), reflect.VPtr (Some (addr 2)))].

Definition countedHeap : heap :=
  {[ 1 := reflect.VStruct countedStruct; 2 := reflect.VString "foo" ]}.

(** [struct { field1 *string }{&field1V}], the field unexported. *)
Definition hiddenStruct : list (reflect.FieldDecl * reflect.value) :=
  [(reflect.Decl "field1" "main" (json "field1"),
    reflect.VPtr (Some (addr 2)))].

Definition hiddenHeap : heap :=
  {[ 1 := reflect.VStruct hiddenStruct; 2 := reflect.VString "foo" ]}.

(** [testStruct{"foo", &nested{true}}] of [TestSerializeNestedStruct],
    the nested record at 2. *)
Definition nestedPtrStruct : list (reflect.FieldDecl * reflect.value) :=
  [(reflect.Decl "Field1" "" (json "field1"), reflect.VString "foo");
   (reflect.Decl "Field2" "" (json "field2"), reflect.VPtr (Some (addr 2)))].

Definition nestedPtrHeap : heap :=
  {[ 1 := reflect.VStruct nestedPtrStruct; 2 := nested true ]}.

(** [struct { Field1 nested `json:"field"` }{nested{true}}]: the nested
    record held by value. *)
Definition embeddedStruct : list (reflect.FieldDecl * reflect.value) :=
  [(reflect.Decl "Field1" "" (json "field"), nested true)].

(** [struct { field1 []*nested `json:"field"` }{}]: an unexported slice,
    nil. *)
Definition hiddenNilSliceStruct : list (reflect.FieldDecl * reflect.value) :=
  [(reflect.Decl "field1" "main" (json "field"), reflect.VSlice None)].

(** The map of [TestFilterMapFields]. *)
Definition testMap : ProjectionResult :=
  {[ "field1" := Some (reflect.VNum reflect.NInt 1);
     "field2" := Some (reflect.VString "val");
     "field3" := None ]}.

(** ** Outcomes and loops *)

Lemma bind_Ok {E A B} (f : A → res E B) (a : A) : (Ok a ≫= f) = f a.
Proof. reflexivity. Qed.

Lemma bind_returns {E A B} (f : A → res E B) (m : res E A) (b : B) :
  (m ≫= f) = Ok b → ∃ a, m = Ok a ∧ f a = Ok b.
Proof. destruct m as [a|e]; [eauto | discriminate]. Qed.

Lemma foldM_cons {E A B} (body : B → A → res E A) (x : B) (l : list B)
    (a : A) :
  foldM body (x :: l) a = (a' ← body x a; foldM body l a').
Proof. reflexivity. Qed.

Lemma foldM_singleton {E A B} (body : B → A → res E A) (x : B) (a : A) :
  foldM body [x] a = body x a.
Proof. simpl. by destruct (body x a). Qed.

Lemma foldM_app {E A B} (body : B → A → res E A) (l1 l2 : list B) (a : A) :
  foldM body (l1 ++ l2) a = (foldM body l1 a ≫= foldM body l2).
Proof.
  revert a. induction l1 as [|x l1 IH]; intros a; simpl; [done|].
  destruct (body x a) as [a'|e]; simpl; [apply IH | done].
Qed.

(** ** containsField *)

Lemma containsField_true (field : string) (fields : list string) :
  containsField field fields = true ↔ field ∈ fields.
Proof.
  induction fields as [|v fields IH]; simpl.
  - split; [discriminate | by intros ?%elem_of_nil].
  - rewrite elem_of_cons. destruct (String.eqb_spec field v) as [->|Hne].
    + split; [by left | done].
    + rewrite IH. split; [by right | by intros [?|?]].
Qed.

Lemma containsField_false (field : string) (fields : list string) :
  containsField field fields = false ↔ field ∉ fields.
Proof.
  rewrite <- containsField_true.
  destruct (containsField field fields); split; congruence.
Qed.

(** ** Serialize: the null check *)

Lemma Serialize_unfold h model fields :
  Serialize h model fields =
  (isNil ← reflect.IsNil (reflect.ValueOf model);
   if isNil : bool then Ok ∅ else
   elem ← reflect.Elem h (reflect.ValueOf model);
   modelType ← reflect.Value_Type elem;
   foldM (λ name result, serializeEntry h name model elem modelType result)
         fields ∅).
Proof. reflexivity. Qed.

Lemma Elem_handle h p x :
  reflect.load h p = Some x →
  reflect.Elem h (reflect.ValueOf (handle p)) =
  Ok (reflect.mkValue (Some x) false (Some p)).
Proof. intros Hp. unfold reflect.Elem. simpl. by rewrite Hp. Qed.

(** On a handle to a record the loop over [fields] runs. *)
Lemma Serialize_handle h p x fields :
  reflect.load h p = Some x →
  Serialize h (handle p) fields =
  foldM (λ name result,
           serializeEntry h name (handle p)
             (reflect.mkValue (Some x) false (Some p)) x result)
        fields ∅.
Proof.
  intros Hp. rewrite Serialize_unfold, (Elem_handle h p x) by done.
  reflexivity.
Qed.

Lemma Serialize_app h p x pre post :
  reflect.load h p = Some x →
  Serialize h (handle p) (pre ++ post) =
  (r ← Serialize h (handle p) pre;
   foldM (λ name result,
            serializeEntry h name (handle p)
              (reflect.mkValue (Some x) false (Some p)) x result)
         post r).
Proof.
  intros Hp. rewrite !(Serialize_handle h p x) by done. apply foldM_app.
Qed.

(** C2. For every specification list, [Serialize] called with the nil
    record handle returns the empty map; it does not panic. *)
Theorem Serialize_nil_handle (h : heap) (fields : list fieldSpec) :
  Serialize h nilHandle fields = Ok ∅.
Proof. reflexivity. Qed.

(** What is converted to [interface{}] is never itself an interface. *)
Lemma dynamic_not_iface (v : reflect.value) (d : option reflect.value) :
  reflect.dynamic v ≠ Some (reflect.VIface d).
Proof.
  revert v. fix IH 1. intros v. destruct v as [| | | | | | |[d'|]| | | |];
    simpl; try discriminate. apply IH.
Qed.

Lemma ValueOf_not_iface (model : iface) (d : option reflect.value) :
  reflect.data (reflect.ValueOf model) ≠ Some (reflect.VIface d).
Proof.
  destruct model as [v|]; simpl; [apply dynamic_not_iface | discriminate].
Qed.

(** C10, amended. When the model is not a pointer, the null check of
    [Serialize] panics exactly when the model's kind is none of chan,
    func, map, slice and unsafe pointer (a record passed by value, a
    number, a typeless nil); a nil model of one of these kinds takes the
    empty-result path as a nil pointer does, and one that is not nil
    passes the check and panics at [Elem].  Either way the call ends
    before the loop over the list: only a pointer gets that far. *)
Theorem Serialize_model_not_pointer (h : heap) (model : iface)
    (fields : list fieldSpec) :
  let val := reflect.ValueOf model in
  reflect.Value_Kind val ≠ reflect.Ptr →
  (nilableKind (reflect.Value_Kind val) = false ∧
   Serialize h model fields =
   Panic (reflect.ValueError "reflect.Value.IsNil" (reflect.Value_Kind val)))
  ∨ (nilableKind (reflect.Value_Kind val) = true ∧
     reflect.IsNil val = Ok true ∧
     Serialize h model fields = Ok ∅)
  ∨ (nilableKind (reflect.Value_Kind val) = true ∧
     reflect.IsNil val = Ok false ∧
     Serialize h model fields =
     Panic (reflect.ValueError "reflect.Value.Elem" (reflect.Value_Kind val))).
Proof.
  intros val Hk. rewrite Serialize_unfold. fold val.
  pose proof (ValueOf_not_iface model) as Hi. fold val in Hi.
  unfold reflect.IsNil, reflect.Elem, reflect.Value_Kind in *.
  destruct (reflect.data val) as [x|] eqn:Hx; [|by left].
  destruct x as [b|k n|s|c|f|u|q|d|s|a|m|fs]; simpl in *;
    try (by left); try done; try (by destruct (Hi d)).
  - destruct k; by left.
  - destruct c; [right; right | right; left]; done.
  - destruct f; [right; right | right; left]; done.
  - destruct u; [right; right | right; left]; done.
  - destruct s; [right; right | right; left]; done.
  - destruct m; [right; right | right; left]; done.
Qed.

(** The typeless nil is such a model: the null check panics. *)
Lemma Serialize_model_not_pointer_witness :
  Serialize ∅ None [] =
  Panic (reflect.ValueError "reflect.Value.IsNil" reflect.Invalid).
Proof.
  destruct (Serialize_model_not_pointer ∅ None [])
    as [[_ H]|[[H _]|[H _]]]; [discriminate | exact H | discriminate ..].
Defined.

(** C10 as stated fails: a nil map is not a pointer, the null check does
    not panic on it, and [Serialize] returns the empty result. *)
Lemma Serialize_nil_map_not_aborted :
  reflect.Value_Kind (reflect.ValueOf (Some (reflect.VMap None)))
    ≠ reflect.Ptr ∧
  reflect.IsNil (reflect.ValueOf (Some (reflect.VMap None))) = Ok true ∧
  Serialize ∅ (Some (reflect.VMap None)) [SpecString "Field1"] = Ok ∅.
Proof. split; [discriminate | split; reflexivity]. Qed.

(** ** Leaf entries *)

Lemma fieldNamed_name fs name i d v :
  fieldNamed fs name i d v → reflect.declName d = name.
Proof.
  unfold fieldNamed, reflect.findField. intros H.
  apply list_find_Some in H as (_ & H & _). exact H.
Qed.

(** What [serializeStrField] does with a field of the record. *)
Lemma serializeStrField_record p fs name i d v (r : ProjectionResult) :
  fieldNamed fs name i d v →
  serializeStrField (recordValue p fs) (reflect.VStruct fs) name r =
  match wireName d with
  | None => Panic (reflect.PanicString (noJsonTag name))
  | Some w =>
      if reflect.IsExported d
      then Ok (<[w := reflect.dynamic v]> r)
      else Panic (reflect.ReflectPanic reflect.unexportedInterface)
  end.
Proof.
  intros Hf. pose proof (fieldNamed_name _ _ _ _ _ Hf) as Hn.
  unfold fieldNamed in Hf.
  unfold serializeStrField, reflect.Value_FieldByName,
    reflect.Type_FieldByName, recordValue. simpl. rewrite Hf. simpl.
  unfold getSerializedName, wireName. simpl. rewrite Hn.
  destruct (reflect.Lookup (reflect.declTag d) "json") as [w|]; simpl;
    [|done].
  unfold reflect.Value_Interface. simpl.
  by destruct (reflect.IsExported d).
Qed.

(** C6. A leaf entry naming a field of the record that has no json tag
    makes [Serialize] panic, whatever else the list holds; when the
    entries before it are handled without a panic, the panic is the one
    of [getSerializedName], and its message quotes the name of the
    field. *)
Theorem Serialize_field_without_tag (h : heap) (p : reflect.pointer)
    (fs : list (reflect.FieldDecl * reflect.value))
    (pre post : list fieldSpec) (name : string) (i : nat)
    (d : reflect.FieldDecl) (v : reflect.value) :
  reflect.load h p = Some (reflect.VStruct fs) →
  fieldNamed fs name i d v →
  wireName d = None →
  panics (Serialize h (handle p) (pre ++ SpecString name :: post)) ∧
  (returns (Serialize h (handle p) pre) →
   Serialize h (handle p) (pre ++ SpecString name :: post) =
   Panic (reflect.PanicString
            ("Field " +:+ dquote +:+ name +:+ dquote +:+ " has no json tag"))).
Proof.
  intros Hp Hf Hw.
  rewrite (Serialize_app h p (reflect.VStruct fs)) by done.
  assert (∀ r, foldM (λ name result,
                 serializeEntry h name (handle p)
                   (reflect.mkValue (Some (reflect.VStruct fs)) false (Some p))
                   (reflect.VStruct fs) result) (SpecString name :: post) r
               = Panic (reflect.PanicString (noJsonTag name))) as Hstep.
  { intros r. simpl.
    change (reflect.mkValue (Some (reflect.VStruct fs)) false (Some p))
      with (recordValue p fs).
    by rewrite (serializeStrField_record p fs name i d v r Hf), Hw. }
  split.
  - destruct (Serialize h (handle p) pre) as [r|e].
    + rewrite bind_Ok, Hstep. by eexists.
    + by eexists.
  - intros [r ->]. rewrite bind_Ok. apply Hstep.
Qed.

(** The record of the package's test [TestSerializeFieldWithoutTag]. *)
Lemma Serialize_field_without_tag_witness :
  Serialize {[ 1 := reflect.VStruct untaggedStruct ]} (handle (addr 1))
    [SpecString "Field1"] =
  Panic (reflect.PanicString
           ("Field " +:+ dquote +:+ "Field1" +:+ dquote +:+ " has no json tag")).
Proof.
  refine (proj2 (Serialize_field_without_tag _ (addr 1) untaggedStruct
    [] [] "Field1" 0 (reflect.Decl "Field1" "" []) (reflect.VString "foo")
    _ _ _) _).
  - reflexivity.
  - reflexivity.
  - reflexivity.
  - eexists. reflexivity.
Defined.

Lemma leafPair_Some fs name i d v w :
  fieldNamed fs name i d v → wireName d = Some w →
  leafPair fs name = Some (w, reflect.dynamic v).
Proof.
  unfold fieldNamed, leafPair. intros -> Hw. simpl. by rewrite Hw.
Qed.

Lemma leafPair_inv fs name w x :
  leafPair fs name = Some (w, x) →
  ∃ i d v, fieldNamed fs name i d v ∧ wireName d = Some w ∧
           x = reflect.dynamic v.
Proof.
  unfold fieldNamed, leafPair. intros H.
  destruct (reflect.findField name fs) as [[i [d v]]|]; simpl in H; [|done].
  destruct (wireName d) as [w'|] eqn:Hw; simpl in H; [|done].
  injection H as <- <-. by exists i, d, v.
Qed.

Lemma leafResult_snoc fs names name r0 :
  leafResult fs (names ++ [name]) r0 =
  from_option (λ kv, <[kv.1 := kv.2]> (leafResult fs names r0))
              (leafResult fs names r0) (leafPair fs name).
Proof. unfold leafResult. by rewrite foldl_app. Qed.

(** Readable leaf entries are handled without a panic, each inserting its
    pair. *)
Lemma foldM_leaves h p fs names (r0 : ProjectionResult) :
  Forall (readableLeaf fs) names →
  foldM (λ name result,
           serializeEntry h name (handle p) (recordValue p fs)
             (reflect.VStruct fs) result)
        (SpecString <$> names) r0
  = Ok (leafResult fs names r0).
Proof.
  intros Hall. revert r0.
  induction Hall as [|name names (i & d & v & w & Hf & Hw & He) _ IH];
    intros r0; [done|].
  simpl. rewrite (serializeStrField_record p fs name i d v r0 Hf), Hw, He.
  rewrite bind_Ok, IH. unfold leafResult. simpl.
  by rewrite (leafPair_Some fs name i d v w).
Qed.

Lemma leafResult_dom fs names (r0 : ProjectionResult) w :
  w ∈ dom (leafResult fs names r0) ↔
  w ∈ dom r0 ∨ ∃ name x, name ∈ names ∧ leafPair fs name = Some (w, x).
Proof.
  induction names as [|name names IH] using rev_ind.
  - simpl. split; [by left|]. intros [?|(? & ? & []%elem_of_nil & _)]. done.
  - rewrite leafResult_snoc.
    destruct (leafPair fs name) as [[w' x']|] eqn:Hl; simpl.
    + rewrite dom_insert, elem_of_union, elem_of_singleton, IH. split.
      * intros [->|[?|(n & x & Hn & Hx)]]; [right|by left|right].
        -- exists name, x'. split; [|done].
           apply elem_of_app. right. by apply list_elem_of_singleton.
        -- exists n, x. split; [|done]. apply elem_of_app. by left.
      * intros [?|(n & x & Hn & Hx)]; [by right; left|].
        apply elem_of_app in Hn as [Hn|Hn%list_elem_of_singleton].
        -- right; right. by exists n, x.
        -- subst n. rewrite Hl in Hx. injection Hx as -> ->. by left.
    + rewrite IH. split.
      * intros [?|(n & x & Hn & Hx)]; [by left|right].
        exists n, x. split; [|done]. apply elem_of_app. by left.
      * intros [?|(n & x & Hn & Hx)]; [by left|].
        apply elem_of_app in Hn as [Hn|Hn%list_elem_of_singleton].
        -- right. by exists n, x.
        -- subst n. congruence.
Qed.

Lemma leafResult_lookup fs names (r0 : ProjectionResult) j name w x :
  names !! j = Some name →
  leafPair fs name = Some (w, x) →
  (∀ j' name' x', j < j' → names !! j' = Some name' →
                  leafPair fs name' ≠ Some (w, x')) →
  leafResult fs names r0 !! w = Some x.
Proof.
  revert j. induction names as [|last names IH] using rev_ind;
    intros j Hj Hl Hlater; [done|].
  rewrite leafResult_snoc.
  destruct (decide (j = length names)) as [->|Hne].
  - rewrite lookup_app_r, Nat.sub_diag in Hj by done. injection Hj as ->.
    rewrite Hl. simpl. apply lookup_insert_eq.
  - assert (j < length names) as Hlt.
    { apply lookup_lt_Some in Hj. rewrite length_app in Hj. simpl in Hj. lia. }
    rewrite lookup_app_l in Hj by done.
    assert (leafResult fs names r0 !! w = Some x) as Hrec.
    { apply (IH j); [done..|]. intros j' name' x' Hjj' Hj'.
      apply (Hlater j' name' x' Hjj'). by apply lookup_app_l_Some. }
    destruct (leafPair fs last) as [[w' x']|] eqn:Hlast; simpl; [|done].
    destruct (decide (w' = w)) as [->|Hw].
    + exfalso. apply (Hlater (length names) last x'); [done| |done].
      by rewrite lookup_app_r, Nat.sub_diag.
    + by rewrite lookup_insert_ne.
Qed.

(** C3, amended. For a record and a list of leaf entries that all name
    exported fields of the record carrying a json tag, [Serialize]
    returns a map whose keys are exactly the wire names of the named
    fields, and which holds at the wire name of an entry the value of
    its field, unless a later entry has the same wire name. *)
Theorem Serialize_leaves (h : heap) (p : reflect.pointer)
    (fs : list (reflect.FieldDecl * reflect.value)) (names : list string) :
  reflect.load h p = Some (reflect.VStruct fs) →
  Forall (readableLeaf fs) names →
  ∃ r : ProjectionResult,
    Serialize h (handle p) (SpecString <$> names) = Ok r ∧
    (∀ w, w ∈ dom r ↔
          ∃ name i d v, name ∈ names ∧ fieldNamed fs name i d v ∧
                        wireName d = Some w) ∧
    (∀ j name i d v w,
       names !! j = Some name → fieldNamed fs name i d v →
       wireName d = Some w →
       (∀ j' name' i' d' v',
          j < j' → names !! j' = Some name' →
          fieldNamed fs name' i' d' v' → wireName d' ≠ Some w) →
       r !! w = Some (reflect.dynamic v)).
Proof.
  intros Hp Hall. exists (leafResult fs names ∅). split; [|split].
  - rewrite (Serialize_handle h p (reflect.VStruct fs)) by done.
    by apply foldM_leaves.
  - intros w. rewrite leafResult_dom, dom_empty, elem_of_empty. split.
    + intros [[]|(name & x & Hn & Hx)].
      apply leafPair_inv in Hx as (i & d & v & Hf & Hw & _).
      by exists name, i, d, v.
    + intros (name & i & d & v & Hn & Hf & Hw). right.
      exists name, (reflect.dynamic v). split; [done|].
      by apply (leafPair_Some fs name i d v w).
  - intros j name i d v w Hj Hf Hw Hlater.
    apply (leafResult_lookup fs names ∅ j name); [done| |].
    + by apply (leafPair_Some fs name i d v w).
    + intros j' name' x' Hjj' Hj' Hx.
      apply leafPair_inv in Hx as (i' & d' & v' & Hf' & Hw' & _).
      by apply (Hlater j' name' i' d' v' Hjj' Hj' Hf').
Qed.

(** The record and the list of the package's test
    [TestSerializeFullStruct]. *)
Lemma Serialize_leaves_witness :
  ∃ r : ProjectionResult,
    Serialize {[ 1 := reflect.VStruct fullStruct ]} (handle (addr 1))
      (SpecString <$> ["Field1"; "Field2"]) = Ok r ∧
    r !! "field1" = Some (Some (reflect.VString "foo")) ∧
    r !! "field2" = Some (Some (reflect.VNum reflect.NInt 42)).
Proof.
  assert (reflect.load {[ 1 := reflect.VStruct fullStruct ]} (addr 1)
          = Some (reflect.VStruct fullStruct)) as Hload by reflexivity.
  destruct (Serialize_leaves {[ 1 := reflect.VStruct fullStruct ]}
    (addr 1) fullStruct ["Field1"; "Field2"] Hload)
    as (r & Hr & _ & Hv).
  - repeat constructor.
    + by exists 0, (reflect.Decl "Field1" "" (json "field1")),
        (reflect.VString "foo"), "field1".
    + by exists 1, (reflect.Decl "Field2" "" (json "field2")),
        (reflect.VNum reflect.NInt 42), "field2".
  - exists r. split; [exact Hr|]. split.
    + apply (Hv 0 "Field1" 0 (reflect.Decl "Field1" "" (json "field1"))
               (reflect.VString "foo") "field1" eq_refl eq_refl eq_refl).
      intros [|[|j']] name' i' d' v' Hlt Hj' Hf' Hw'; [lia| |done].
      injection Hj' as <-. injection Hf' as <- <- <-. done.
    + apply (Hv 1 "Field2" 1 (reflect.Decl "Field2" "" (json "field2"))
               (reflect.VNum reflect.NInt 42) "field2"
               eq_refl eq_refl eq_refl).
      intros [|[|j']] name' i' d' v' Hlt Hj' Hf' Hw'; [lia|lia|done].
Defined.

(** C3 as stated fails on an unexported field: tagged though it is,
    [Value.Interface] refuses to hand out its value and [Serialize]
    panics. *)
Lemma Serialize_unexported_leaf_panics :
  fieldNamed unexportedStruct "field1" 0
    (reflect.Decl "field1" "main" (json "field1")) (reflect.VString "foo") ∧
  wireName (reflect.Decl "field1" "main" (json "field1")) = Some "field1" ∧
  Serialize {[ 1 := reflect.VStruct unexportedStruct ]} (handle (addr 1))
    [SpecString "field1"] =
  Panic (reflect.ReflectPanic reflect.unexportedInterface).
Proof. split; [|split]; reflexivity. Qed.

(** ** Entries of no known type *)

Lemma serializeEntry_other h k model elem modelType (r : ProjectionResult) :
  serializeEntry h (SpecOther k) model elem modelType r
  = Panic (unknownSpecEntry k).
Proof. by destruct k. Qed.

(** A panic on the entry after [pre] ends the call: with it if [pre] is
    handled, earlier if not. *)
Lemma Serialize_entry_panics h p x pre e post err :
  reflect.load h p = Some x →
  (∀ r, serializeEntry h e (handle p)
          (reflect.mkValue (Some x) false (Some p)) x r = Panic err) →
  panics (Serialize h (handle p) (pre ++ e :: post)) ∧
  (returns (Serialize h (handle p) pre) →
   Serialize h (handle p) (pre ++ e :: post) = Panic err).
Proof.
  intros Hp He. rewrite (Serialize_app h p x) by done.
  destruct (Serialize h (handle p) pre) as [r|err'].
  - rewrite bind_Ok. simpl. rewrite He. split; [by eexists | done].
  - split; [by eexists | by intros [? ?]].
Qed.

(** C8, amended. An entry whose type is none of [string],
    [FieldSerializer] and [map[string][]interface{}] makes [Serialize]
    panic: with "Undefined func type for serializer." when it is a func,
    with a failed type assertion otherwise -- this one when the entries
    before it are handled. *)
Theorem Serialize_unknown_entry (h : heap) (p : reflect.pointer)
    (x : reflect.value) (pre post : list fieldSpec) (k : reflect.Kind) :
  reflect.load h p = Some x →
  panics (Serialize h (handle p) (pre ++ SpecOther k :: post)) ∧
  (returns (Serialize h (handle p) pre) →
   Serialize h (handle p) (pre ++ SpecOther k :: post)
   = Panic (unknownSpecEntry k)).
Proof.
  intros Hp. apply (Serialize_entry_panics h p x); [done|].
  intros r. apply serializeEntry_other.
Qed.

(** An integer among the entries of [TestSerializeFullStruct]. *)
Lemma Serialize_unknown_entry_witness :
  Serialize {[ 1 := reflect.VStruct fullStruct ]} (handle (addr 1))
    [SpecString "Field1"; SpecOther reflect.Int; SpecString "Field2"]
  = Panic reflect.TypeAssertionError.
Proof.
  assert (reflect.load {[ 1 := reflect.VStruct fullStruct ]} (addr 1)
          = Some (reflect.VStruct fullStruct)) as Hload by reflexivity.
  apply (proj2 (Serialize_unknown_entry _ _ _ [SpecString "Field1"]
                  [SpecString "Field2"] reflect.Int Hload)).
  eexists. reflexivity.
Defined.

(** C8 as stated fails: a mapping without a key is none of the three
    shapes, and [Serialize] passes over it without a panic. *)
Lemma Serialize_empty_mapping_accepted :
  recognizedShape (SpecMap []) = false ∧
  Serialize {[ 1 := reflect.VStruct fullStruct ]} (handle (addr 1))
    [SpecMap []] = Ok ∅.
Proof. split; reflexivity. Qed.

(** ** Nested entries *)

Lemma serializeEntry_nested_cons h name child rest model elem modelType
    (r : ProjectionResult) :
  serializeEntry h (SpecMap ((name, child) :: rest)) model elem modelType r =
  (ft ← reflect.Type_FieldByName modelType name;
   serializedName ← getSerializedName ft.1;
   fieldValue ← reflect.Value_FieldByName elem name;
   k ← reflect.Type_Kind (reflect.Type_ ft.1);
   result' ←
     match k with
     | reflect.Slice | reflect.Array =>
         serializeArrayField (λ x, Serialize h x child)
           fieldValue serializedName r
     | reflect.Ptr =>
         x ← reflect.Value_Interface fieldValue;
         r' ← Serialize h x child;
         Ok (<[serializedName := Some (MapValue r')]> r)
     | reflect.Struct =>
         a ← reflect.Addr fieldValue;
         x ← reflect.Value_Interface a;
         r' ← Serialize h x child;
         Ok (<[serializedName := Some (MapValue r')]> r)
     | _ => Panic (reflect.PanicString undefinedType)
     end;
   serializeEntry h (SpecMap rest) model elem modelType result').
Proof. reflexivity. Qed.

Lemma fieldValue_record p fs i d v :
  reflect.fieldValue (recordValue p fs) i (d, v) =
  reflect.mkValue (Some v) (negb (reflect.IsExported d))
                  (Some (reflect.sub p i)).
Proof. reflexivity. Qed.

(** The first steps of a nested entry on a field of the record. *)
Lemma serializeEntry_nested_record h p fs name child rest i d v
    (r : ProjectionResult) :
  fieldNamed fs name i d v →
  serializeEntry h (SpecMap ((name, child) :: rest)) (handle p)
    (recordValue p fs) (reflect.VStruct fs) r =
  match wireName d with
  | None => Panic (reflect.PanicString (noJsonTag name))
  | Some w =>
      result' ←
        match reflect.kindOf v with
        | reflect.Slice | reflect.Array =>
            serializeArrayField (λ x, Serialize h x child)
              (reflect.fieldValue (recordValue p fs) i (d, v)) w r
        | reflect.Ptr =>
            x ← reflect.Value_Interface
                  (reflect.fieldValue (recordValue p fs) i (d, v));
            r' ← Serialize h x child;
            Ok (<[w := Some (MapValue r')]> r)
        | reflect.Struct =>
            a ← reflect.Addr (reflect.fieldValue (recordValue p fs) i (d, v));
            x ← reflect.Value_Interface a;
            r' ← Serialize h x child;
            Ok (<[w := Some (MapValue r')]> r)
        | _ => Panic (reflect.PanicString undefinedType)
        end;
      serializeEntry h (SpecMap rest) (handle p) (recordValue p fs)
        (reflect.VStruct fs) result'
  end.
Proof.
  intros Hf. pose proof (fieldNamed_name _ _ _ _ _ Hf) as Hn.
  unfold fieldNamed in Hf. rewrite serializeEntry_nested_cons.
  unfold reflect.Type_FieldByName, reflect.Value_FieldByName, recordValue.
  simpl. rewrite Hf. rewrite bind_Ok.
  unfold getSerializedName, wireName. simpl. rewrite Hn.
  destruct (reflect.Lookup (reflect.declTag d) "json") as [w|]; [|done].
  reflexivity.
Qed.

(** C7, amended. A nested entry on a field of the record that has a json
    tag and whose kind is none of slice, array, pointer and struct makes
    [Serialize] panic, with "Undefined type for serializer. Need to
    implement it" when the entries before it are handled. *)
Theorem Serialize_nested_unsupported_kind (h : heap) (p : reflect.pointer)
    (fs : list (reflect.FieldDecl * reflect.value))
    (pre post : list fieldSpec) (name : string) (child : list fieldSpec)
    (rest : list (string * list fieldSpec)) (i : nat)
    (d : reflect.FieldDecl) (v : reflect.value) (w : string) :
  reflect.load h p = Some (reflect.VStruct fs) →
  fieldNamed fs name i d v →
  wireName d = Some w →
  nestedKind (reflect.kindOf v) = false →
  panics (Serialize h (handle p)
            (pre ++ SpecMap ((name, child) :: rest) :: post)) ∧
  (returns (Serialize h (handle p) pre) →
   Serialize h (handle p) (pre ++ SpecMap ((name, child) :: rest) :: post)
   = Panic (reflect.PanicString
              "Undefined type for serializer. Need to implement it")).
Proof.
  intros Hp Hf Hw Hk.
  apply (Serialize_entry_panics h p (reflect.VStruct fs)); [done|].
  intros r.
  change (reflect.mkValue (Some (reflect.VStruct fs)) false (Some p))
    with (recordValue p fs).
  rewrite (serializeEntry_nested_record h p fs name child rest i d v r Hf), Hw.
  by destruct (reflect.kindOf v).
Qed.

(** The record and the entry of the package's test
    [TestSerializeFieldWithUnexpectedPassedField]. *)
Lemma Serialize_nested_unsupported_kind_witness :
  Serialize {[ 1 := reflect.VStruct dictStruct ]} (handle (addr 1))
    [SpecMap [("Field1", [SpecString "Field2"])]]
  = Panic (reflect.PanicString
             "Undefined type for serializer. Need to implement it").
Proof.
  assert (reflect.load {[ 1 := reflect.VStruct dictStruct ]} (addr 1)
          = Some (reflect.VStruct dictStruct)) as Hload by reflexivity.
  apply (proj2 (Serialize_nested_unsupported_kind _ _ dictStruct [] []
    "Field1" [SpecString "Field2"] [] 0
    (reflect.Decl "Field1" "" (json "field")) (reflect.VMap None) "field"
    Hload eq_refl eq_refl eq_refl)).
  eexists. reflexivity.
Defined.

(** C7 as stated fails twice.  A dictionary field without a json tag is
    refused for the missing tag, before its kind is looked at; and a
    pointer to an integer, which is no pointer to a record, is not
    refused at all. *)
Lemma Serialize_nested_not_refused_for_kind :
  (¬ supportedNested {[ 1 := reflect.VStruct untaggedDictStruct ]}
       (reflect.VMap None) ∧
   Serialize {[ 1 := reflect.VStruct untaggedDictStruct ]} (handle (addr 1))
     [SpecMap [("Field1", [])]]
   = Panic (reflect.PanicString (noJsonTag "Field1"))) ∧
  (¬ supportedNested intPtrHeap (reflect.VPtr (Some (addr 2))) ∧
   Serialize intPtrHeap (handle (addr 1)) [SpecMap [("Field1", [])]]
   = Ok {[ "field" := Some (MapValue ∅) ]}).
Proof.
  split; (split; [|reflexivity]).
  - intros [[?|(? & ? & ? & _)]|[[? ?]|(? & ? & _)]]; discriminate.
  - intros [[?|(q & fs & Hq & Hl)]|[[? ?]|(? & ? & _)]]; try discriminate.
    injection Hq as <-. discriminate Hl.
Qed.

(** ** Loops that fill a slice index by index *)

Lemma mapM_res_Forall2 {E A B} (f : A → res E B) (l : list A) (bs : list B) :
  mapM_res f l = Ok bs ↔ Forall2 (λ x b, f x = Ok b) l bs.
Proof.
  revert bs. induction l as [|x l IH]; intros bs; simpl.
  - split.
    + intros [= <-]. constructor.
    + intros ->%Forall2_nil_inv_l. done.
  - split.
    + intros H. apply bind_returns in H as (b & Hb & H).
      apply bind_returns in H as (bs' & Hbs & [= <-]).
      constructor; [done | by apply IH].
    + intros (b & bs' & Hb & Hbs & ->)%Forall2_cons_inv_l.
      rewrite Hb, bind_Ok. apply IH in Hbs. by rewrite Hbs.
Qed.

Lemma mapM_res_length {E A B} (f : A → res E B) (l : list A) (bs : list B) :
  mapM_res f l = Ok bs → length bs = length l.
Proof. intros H%mapM_res_Forall2. symmetry. by eapply Forall2_length. Qed.

(** Running through the indices of a list is running through the list. *)
Lemma mapM_res_seq {E A B} (f : nat → res E B) (F : A → res E B)
    (R : list A) (k : nat) :
  (∀ i x, R !! i = Some x → f (k + i) = F x) →
  mapM_res f (seq k (length R)) = mapM_res F R.
Proof.
  revert k. induction R as [|x R IH]; intros k Hf; simpl; [done|].
  rewrite <- (Hf 0 x eq_refl), Nat.add_0_r.
  destruct (f k) as [b|e]; [|done]. rewrite !bind_Ok.
  rewrite (IH (S k)); [done|].
  intros i y Hi. rewrite <- (Hf (S i) y Hi). f_equal. lia.
Qed.

Lemma foldM_fill {E A B} (f : nat → res E B) (g : B → A) (z : A)
    (body : nat → list A → res E (list A)) (m k : nat) (filled : list A) :
  (∀ i c, body i c = (b ← f i; Ok (<[i := g b]> c))) →
  length filled = k →
  foldM body (seq k m) (filled ++ replicate m z) =
  (bs ← mapM_res f (seq k m); Ok (filled ++ (g <$> bs))).
Proof.
  intros Hbody. revert k filled.
  induction m as [|m IH]; intros k filled Hlen; simpl.
  - by rewrite app_nil_r.
  - rewrite Hbody. destruct (f k) as [b|e]; [|done]. rewrite !bind_Ok.
    replace (<[k := g b]> (filled ++ z :: replicate m z))
      with ((filled ++ [g b]) ++ replicate m z).
    + rewrite (IH (S k) (filled ++ [g b]))
        by (rewrite length_app; simpl; lia).
      destruct (mapM_res f (seq (S k) m)) as [bs|e]; [|done].
      rewrite !bind_Ok. simpl. by rewrite <- app_assoc.
    + rewrite <- app_assoc. simpl. subst k.
      rewrite insert_app_r_alt, Nat.sub_diag by done. done.
Qed.

(** [c := make([]T, n); for i := 0; i < n; i++ { c[i] = g(f(i)) }]. *)
Lemma for_range_fill {E A B} (f : nat → res E B) (g : B → A) (z : A)
    (body : nat → list A → res E (list A)) (n : nat) :
  (∀ i c, body i c = (b ← f i; Ok (<[i := g b]> c))) →
  for_range n body (replicate n z) =
  (bs ← mapM_res f (seq 0 n); (Ok (g <$> bs) : res E (list A))).
Proof.
  intros Hbody. unfold for_range.
  apply (foldM_fill f g z body n 0 [] Hbody eq_refl).
Qed.

(** The elements of a sequence as [Len] and [Index] give them. *)
Lemma Len_elements v ro a R :
  elements v = Some R →
  reflect.Len (reflect.mkValue (Some v) ro a) = Ok (length R).
Proof. destruct v; intros [= <-]; reflexivity. Qed.

Lemma Index_Interface_elements v a R i x :
  elements v = Some R → R !! i = Some x →
  (e ← reflect.Index (reflect.mkValue (Some v) false a) i;
   reflect.Value_Interface e) = Ok (reflect.dynamic x).
Proof.
  destruct v; intros [= <-] Hi; unfold reflect.Index; simpl; by rewrite Hi.
Qed.

(** [serializeArrayField] on a sequence that can be read: the recursive
    call on every element in order. *)
Lemma serializeArrayField_elements
    (S : iface → res panic ProjectionResult) v a R name
    (r : ProjectionResult) :
  elements v = Some R →
  serializeArrayField S (reflect.mkValue (Some v) false a) name r =
  (ms ← mapM_res (λ x, S (reflect.dynamic x)) R;
   Ok (<[name := sequenceValue ms]> r)).
Proof.
  intros Hv. unfold serializeArrayField.
  rewrite (Len_elements v false a R Hv), bind_Ok.
  rewrite (for_range_fill
    (λ i, e ← reflect.Index (reflect.mkValue (Some v) false a) i;
          elemInterface ← reflect.Value_Interface e; S elemInterface)
    (λ m, Some (MapValue m)) None).
  - rewrite (mapM_res_seq _ (λ x, S (reflect.dynamic x)) R 0).
    + by destruct (mapM_res _ R).
    + intros i x Hi. simpl.
      pose proof (Index_Interface_elements v a R i x Hv Hi) as H.
      destruct (reflect.Index _ i) as [e|e]; [|done].
      cbn [mbind res_mbind res_bind] in H |- *. by rewrite H.
  - intros i c.
    destruct (reflect.Index _ i) as [e|e]; [|done]. rewrite !bind_Ok.
    destruct (reflect.Value_Interface e) as [x|e']; [|done].
    rewrite !bind_Ok. by destruct (S x).
Qed.

Lemma mapM_res_returns {E A B} (f : A → res E B) (l : list A) :
  Forall (λ x, returns (f x)) l → returns (mapM_res f l).
Proof.
  induction 1 as [|x l [b Hb] _ [bs Hbs]]; simpl; [by eexists|].
  rewrite Hb, bind_Ok, Hbs. by eexists.
Qed.

(** C9, amended. On a record, a nested entry for a sequence field (slice
    or array) that is exported and has a json tag inserts under the wire
    name a sequence with one map for each element of the field, in
    order: the map [Serialize] returns for that element and the child
    list.  This whenever the entries before it and the calls on the
    elements return. *)
Theorem Serialize_nested_sequence (h : heap) (p : reflect.pointer)
    (fs : list (reflect.FieldDecl * reflect.value)) (pre : list fieldSpec)
    (name : string) (child : list fieldSpec) (i : nat)
    (d : reflect.FieldDecl) (v : reflect.value) (w : string)
    (R : list reflect.value) (r0 : ProjectionResult)
    (ms : list ProjectionResult) :
  reflect.load h p = Some (reflect.VStruct fs) →
  fieldNamed fs name i d v →
  wireName d = Some w →
  reflect.IsExported d = true →
  elements v = Some R →
  Serialize h (handle p) pre = Ok r0 →
  Forall2 (λ x m, Serialize h (reflect.dynamic x) child = Ok m) R ms →
  Serialize h (handle p) (pre ++ [SpecMap [(name, child)]])
  = Ok (<[w := sequenceValue ms]> r0) ∧
  length ms = length R.
Proof.
  intros Hp Hf Hw He Hv Hpre Hms. split; [|symmetry; by eapply Forall2_length].
  rewrite (Serialize_app h p (reflect.VStruct fs)), Hpre, bind_Ok by done.
  rewrite foldM_singleton.
  change (reflect.mkValue (Some (reflect.VStruct fs)) false (Some p))
    with (recordValue p fs).
  rewrite (serializeEntry_nested_record h p fs name child [] i d v r0 Hf), Hw.
  rewrite fieldValue_record, He. simpl negb.
  apply mapM_res_Forall2 in Hms.
  assert (serializeArrayField (λ x, Serialize h x child)
            (reflect.mkValue (Some v) false (Some (reflect.sub p i)))
            w r0 = Ok (<[w := sequenceValue ms]> r0)) as Harr.
  { rewrite (serializeArrayField_elements _ v _ R w r0 Hv), Hms. done. }
  destruct v; try discriminate Hv; simpl reflect.kindOf; cbv iota;
    by rewrite Harr.
Qed.

(** The record and the entry of the package's test
    [TestSerializeFieldWithArrayOfStructs]. *)
Lemma Serialize_nested_sequence_witness :
  Serialize arrayHeap (handle (addr 1))
    [SpecMap [("Field1", [SpecString "FieldNested"])]]
  = Ok {[ "field" :=
            sequenceValue [ {[ "fieldNested" := Some (reflect.VBool true) ]};
                            {[ "fieldNested" := Some (reflect.VBool false) ]} ] ]}.
Proof.
  assert (reflect.load arrayHeap (addr 1) = Some (reflect.VStruct arrayStruct))
    as Hload by reflexivity.
  refine (proj1 (Serialize_nested_sequence arrayHeap (addr 1) arrayStruct []
    "Field1" [SpecString "FieldNested"] 0
    (reflect.Decl "Field1" "" (json "field"))
    (reflect.VArray [reflect.VPtr (Some (addr 2));
                     reflect.VPtr (Some (addr 3))])
    "field"
    [reflect.VPtr (Some (addr 2)); reflect.VPtr (Some (addr 3))] ∅
    [ {[ "fieldNested" := Some (reflect.VBool true) ]};
      {[ "fieldNested" := Some (reflect.VBool false) ]} ]
    Hload eq_refl eq_refl eq_refl eq_refl eq_refl _)).
  repeat constructor.
Defined.

(** C9 as stated fails on an unexported field: the elements of its
    sequence cannot be handed out, and [Serialize] panics at the first
    one. *)
Lemma Serialize_unexported_sequence_panics :
  fieldNamed unexportedSliceStruct "field1" 0
    (reflect.Decl "field1" "main" (json "field"))
    (reflect.VSlice (Some [reflect.VPtr (Some (addr 2));
                           reflect.VPtr (Some (addr 3))])) ∧
  Serialize unexportedSliceHeap (handle (addr 1))
    [SpecMap [("field1", [SpecString "FieldNested"])]]
  = Panic (reflect.ReflectPanic reflect.unexportedInterface).
Proof. split; reflexivity. Qed.

(** ** SerializeList *)

Lemma SerializeList_elements h v R fields :
  elements v = Some R →
  SerializeList h (Some v) fields =
  mapM_res (λ x, Serialize h (reflect.dynamic x) fields) R.
Proof.
  intros Hv. unfold SerializeList.
  assert (reflect.ValueOf (Some v) = reflect.mkValue (Some v) false None)
    as -> by (by destruct v).
  rewrite (Len_elements v false None R Hv), bind_Ok.
  rewrite (for_range_fill
    (λ i, e ← reflect.Index (reflect.mkValue (Some v) false None) i;
          x ← reflect.Value_Interface e; Serialize h x fields)
    (λ m, m) ∅).
  - rewrite (mapM_res_seq _ (λ x, Serialize h (reflect.dynamic x) fields) R 0).
    + destruct (mapM_res _ R) as [ms|]; [|done].
      rewrite bind_Ok. by rewrite list_fmap_id.
    + intros i x Hi. simpl.
      pose proof (Index_Interface_elements v None R i x Hv Hi) as H.
      destruct (reflect.Index _ i) as [e|e]; [|done].
      cbn [mbind res_mbind res_bind] in H |- *. by rewrite H.
  - intros i c.
    destruct (reflect.Index _ i) as [e|e]; [|done]. rewrite !bind_Ok.
    destruct (reflect.Value_Interface e) as [x|e']; [|done].
    rewrite !bind_Ok. by destruct (Serialize h x fields).
Qed.

(** C4. For a sequence of records (a slice or an array) and a
    specification list, [SerializeList] returns as soon as [Serialize]
    returns on every element; and what it returns has as many elements
    as the sequence, the one at each index being what [Serialize]
    returns for the record at that index. *)
Theorem SerializeList_pointwise (h : heap) (v : reflect.value)
    (R : list reflect.value) (fields : list fieldSpec) :
  elements v = Some R →
  (Forall (λ x, returns (Serialize h (reflect.dynamic x) fields)) R →
   returns (SerializeList h (Some v) fields)) ∧
  (∀ res, SerializeList h (Some v) fields = Ok res →
     length res = length R ∧
     ∀ i x, R !! i = Some x →
       ∃ m, res !! i = Some m ∧
            Serialize h (reflect.dynamic x) fields = Ok m).
Proof.
  intros Hv. rewrite (SerializeList_elements h v R fields Hv). split.
  - apply mapM_res_returns.
  - intros res Hres. split; [by eapply mapM_res_length|].
    apply mapM_res_Forall2 in Hres. intros i x Hi.
    destruct (Forall2_lookup_l _ _ _ _ _ Hres Hi) as (m & Hm & Hx).
    by exists m.
Qed.

(** The call of the package's test [TestSerializeListFullStruct]. *)
Lemma SerializeList_pointwise_witness :
  returns (SerializeList {[ 1 := reflect.VStruct fullStruct ]}
             (Some (reflect.VSlice (Some [reflect.VPtr (Some (addr 1))])))
             [SpecString "Field1"; SpecString "Field2"]).
Proof.
  apply (proj1 (SerializeList_pointwise {[ 1 := reflect.VStruct fullStruct ]}
    (reflect.VSlice (Some [reflect.VPtr (Some (addr 1))]))
    [reflect.VPtr (Some (addr 1))]
    [SpecString "Field1"; SpecString "Field2"] eq_refl)).
  repeat constructor. eexists. reflexivity.
Defined.

(** ** FilterMapFields *)

Lemma isNull_nullReference (v : iface) : isNull v = true ↔ nullReference v.
Proof.
  unfold isNull, nullReference.
  destruct (v ≫= reflect.dynamic) as [x|]; [|by split; [left|]].
  destruct x as [| | | | | |[q|]| | | | |];
    (split; [discriminate || by right | by intros [?|?]]).
Qed.

(** [isNilInterface] never panics. *)
Lemma isNilInterface_isNull (v : iface) : isNilInterface v = Ok (isNull v).
Proof.
  unfold isNilInterface, isNull, reflect.Value_Kind, reflect.IsNil. simpl.
  destruct (v ≫= reflect.dynamic) as [x|]; [|done]. simpl.
  destruct x as [|k n| | | | |[q|]| | | | |]; try done. by destruct k.
Qed.

Lemma FilterMapFields_round fields (kv : string * iface)
    (m : ProjectionResult) :
  (if negb (containsField kv.1 fields) then Ok (delete kv.1 m) else
   isNil ← isNilInterface kv.2;
   if isNil : bool then Ok (delete kv.1 m) else Ok m)
  = (Ok (if deleted fields kv then delete kv.1 m else m)
     : res panic ProjectionResult).
Proof.
  unfold deleted. rewrite isNilInterface_isNull, bind_Ok.
  destruct (containsField kv.1 fields); simpl; [|done].
  by destruct (isNull kv.2).
Qed.

Lemma FilterMapFields_rounds fields (l : list (string * iface))
    (m0 : ProjectionResult) :
  ∃ m' : ProjectionResult,
    foldM (λ (kv : string * iface) (mapData : ProjectionResult),
      if negb (containsField kv.1 fields) then Ok (delete kv.1 mapData) else
      isNil ← isNilInterface kv.2;
      if isNil : bool then Ok (delete kv.1 mapData) else Ok mapData) l m0
    = Ok m' ∧
    ∀ k v, m' !! k = Some v ↔
           m0 !! k = Some v ∧
           ∀ v', (k, v') ∈ l → deleted fields (k, v') = false.
Proof.
  revert m0. induction l as [|kv l IH]; intros m0.
  - exists m0. split; [done|]. intros k v. split; [|by intros [? _]].
    intros ?. split; [done|]. by intros v' ?%elem_of_nil.
  - rewrite foldM_cons, FilterMapFields_round, bind_Ok.
    destruct (IH (if deleted fields kv then delete kv.1 m0 else m0))
      as (m' & Hm' & Hl). exists m'. split; [done|].
    intros k v. rewrite Hl. destruct kv as [k0 v0]. simpl. split.
    + intros [Hk Hrest]. destruct (deleted fields (k0, v0)) eqn:Hd.
      * apply lookup_delete_Some in Hk as [Hne Hk]. split; [done|].
        intros v' [[= <- <-]|?]%elem_of_cons; [done | by apply Hrest].
      * split; [done|].
        intros v' [[= -> ->]|?]%elem_of_cons; [done | by apply Hrest].
    + intros [Hk Hall]. split.
      * destruct (deleted fields (k0, v0)) eqn:Hd; [|done].
        apply lookup_delete_Some. split; [|done]. intros ->.
        rewrite (Hall v0) in Hd; [done | by left].
      * intros v' ?. apply Hall. by right.
Qed.

(** C5. [FilterMapFields] always returns; the keys the map is left with
    are the keys it had that are listed and whose value is not a null
    reference, and each of them keeps its value. *)
Theorem FilterMapFields_spec (mapData : ProjectionResult)
    (fields : list string) :
  ∃ mapData' : ProjectionResult,
    FilterMapFields mapData fields = Ok mapData' ∧
    (∀ k, k ∈ dom mapData' ↔
          k ∈ dom mapData ∧ k ∈ fields ∧
          ∃ v, mapData !! k = Some v ∧ ¬ nullReference v) ∧
    (∀ k v, mapData' !! k = Some v → mapData !! k = Some v).
Proof.
  destruct (FilterMapFields_rounds fields (map_to_list mapData) mapData)
    as (m' & Hm' & Hl).
  exists m'. split; [exact Hm'|]. split.
  - intros k. rewrite !elem_of_dom. split.
    + intros [v Hv]. apply Hl in Hv as [Hk Hall].
      specialize (Hall v). rewrite elem_of_map_to_list in Hall.
      specialize (Hall Hk). unfold deleted in Hall. simpl in Hall.
      apply orb_false_iff in Hall as [Hc Hn].
      apply negb_false_iff, containsField_true in Hc.
      split; [by exists v|]. split; [done|]. exists v. split; [done|].
      rewrite <- isNull_nullReference. by rewrite Hn.
    + intros (_ & Hc & v & Hk & Hn). exists v. apply Hl. split; [done|].
      intros v' Hv'%elem_of_map_to_list.
      assert (v' = v) as -> by congruence.
      unfold deleted. simpl. apply orb_false_iff. split.
      * by apply negb_false_iff, containsField_true.
      * rewrite <- isNull_nullReference in Hn. by destruct (isNull v).
  - intros k v Hv. by apply Hl in Hv as [Hk _].
Qed.

(** ** The store *)

Lemma list_alter_insert {A} (f : A → A) (l : list A) (i : nat) (x : A) :
  l !! i = Some x → alter f i l = <[i := f x]> l.
Proof.
  revert i. induction l as [|y l IH]; intros [|i] Hi; try done.
  - by injection Hi as ->.
  - simpl. f_equal. by apply IH.
Qed.

Lemma update_cons_struct gs j path d0 v0 new :
  gs !! j = Some (d0, v0) →
  reflect.update (reflect.VStruct gs) (j :: path) new =
  reflect.VStruct (<[j := (d0, reflect.update v0 path new)]> gs).
Proof.
  intros Hj. simpl. f_equal.
  by rewrite (list_alter_insert _ gs j (d0, v0)).
Qed.

Lemma update_cons_array a j path v0 new :
  a !! j = Some v0 →
  reflect.update (reflect.VArray a) (j :: path) new =
  reflect.VArray (<[j := reflect.update v0 path new]> a).
Proof.
  intros Hj. simpl. f_equal. by rewrite (list_alter_insert _ a j v0).
Qed.

(** The cases of a path that leads somewhere. *)
Lemma subvalue_cons_inv v j path x :
  reflect.subvalue v (j :: path) = Some x →
  (∃ gs d0 v0, v = reflect.VStruct gs ∧ gs !! j = Some (d0, v0) ∧
               reflect.subvalue v0 path = Some x) ∨
  (∃ a v0, v = reflect.VArray a ∧ a !! j = Some v0 ∧
           reflect.subvalue v0 path = Some x).
Proof.
  destruct v as [| | | | | | | | |a| |gs]; simpl; try discriminate.
  - destruct (a !! j) as [v0|] eqn:Hj; [|discriminate]. simpl.
    intros H. right. by exists a, v0.
  - destruct (gs !! j) as [[d0 v0]|] eqn:Hj; [|discriminate]. simpl.
    intros H. left. by exists gs, d0, v0.
Qed.

Lemma update_id v path x :
  reflect.subvalue v path = Some x → reflect.update v path x = v.
Proof.
  revert v. induction path as [|j path IH]; intros v H.
  - by simplify_eq/=.
  - apply subvalue_cons_inv in H
      as [(gs & d0 & v0 & -> & Hj & H)|(a & v0 & -> & Hj & H)].
    + rewrite (update_cons_struct gs j path d0 v0) by done.
      by rewrite (IH v0), list_insert_id.
    + rewrite (update_cons_array a j path v0) by done.
      by rewrite (IH v0), list_insert_id.
Qed.

Lemma subvalue_update v path old new :
  reflect.subvalue v path = Some old →
  reflect.subvalue (reflect.update v path new) path = Some new.
Proof.
  revert v. induction path as [|j path IH]; intros v H; [done|].
  apply subvalue_cons_inv in H
    as [(gs & d0 & v0 & -> & Hj & H)|(a & v0 & -> & Hj & H)].
  - rewrite (update_cons_struct gs j path d0 v0) by done. simpl.
    rewrite list_lookup_insert_eq by (by eapply lookup_lt_Some). simpl.
    by apply IH.
  - rewrite (update_cons_array a j path v0) by done. simpl.
    rewrite list_lookup_insert_eq by (by eapply lookup_lt_Some). simpl.
    by apply IH.
Qed.

Lemma update_update v path old a b :
  reflect.subvalue v path = Some old →
  reflect.update (reflect.update v path a) path b = reflect.update v path b.
Proof.
  revert v. induction path as [|j path IH]; intros v H; [done|].
  apply subvalue_cons_inv in H
    as [(gs & d0 & v0 & -> & Hj & H)|(l & v0 & -> & Hj & H)].
  - rewrite !(update_cons_struct gs j path d0 v0) by done.
    rewrite (update_cons_struct _ j path d0 (reflect.update v0 path a))
      by (apply list_lookup_insert_eq; by eapply lookup_lt_Some).
    by rewrite list_insert_insert_eq, (IH v0).
  - rewrite !(update_cons_array l j path v0) by done.
    rewrite (update_cons_array _ j path (reflect.update v0 path a))
      by (apply list_lookup_insert_eq; by eapply lookup_lt_Some).
    by rewrite list_insert_insert_eq, (IH v0).
Qed.

(** Writing a field of a struct is writing the struct with that field
    replaced. *)
Lemma update_field v path fs i d w x :
  reflect.subvalue v path = Some (reflect.VStruct fs) →
  fs !! i = Some (d, w) →
  reflect.update v (path ++ [i]) x =
  reflect.update v path (reflect.VStruct (<[i := (d, x)]> fs)).
Proof.
  revert v. induction path as [|j path IH]; intros v H Hi.
  - simplify_eq/=. by rewrite (list_alter_insert _ fs i (d, w)).
  - apply subvalue_cons_inv in H
      as [(gs & d0 & v0 & -> & Hj & H)|(a & v0 & -> & Hj & H)].
    + simpl app. rewrite !(update_cons_struct gs j _ d0 v0) by done.
      by rewrite (IH v0).
    + simpl app. rewrite !(update_cons_array a j _ v0) by done.
      by rewrite (IH v0).
Qed.

Lemma load_inv h p x :
  reflect.load h p = Some x →
  ∃ v, h !! reflect.base p = Some v ∧
       reflect.subvalue v (reflect.path p) = Some x.
Proof.
  unfold reflect.load. destruct (h !! reflect.base p) as [v|]; [|done].
  intros H. by exists v.
Qed.

Lemma store_alter h p new v :
  h !! reflect.base p = Some v →
  reflect.store h p new =
  <[reflect.base p := reflect.update v (reflect.path p) new]> h.
Proof.
  intros Hv. unfold reflect.store. apply map_eq. intros k.
  destruct (decide (k = reflect.base p)) as [->|Hne].
  - by rewrite lookup_alter_eq, Hv, lookup_insert_eq.
  - by rewrite lookup_alter_ne, lookup_insert_ne.
Qed.

Lemma store_id h p x : reflect.load h p = Some x → reflect.store h p x = h.
Proof.
  intros (v & Hv & Hx)%load_inv.
  by rewrite (store_alter h p x v), update_id, insert_id.
Qed.

Lemma load_store h p old new :
  reflect.load h p = Some old →
  reflect.load (reflect.store h p new) p = Some new.
Proof.
  intros (v & Hv & Hx)%load_inv. rewrite (store_alter h p new v) by done.
  unfold reflect.load. rewrite lookup_insert_eq. simpl.
  by eapply subvalue_update.
Qed.

Lemma store_store h p old a b :
  reflect.load h p = Some old →
  reflect.store (reflect.store h p a) p b = reflect.store h p b.
Proof.
  intros (v & Hv & Hx)%load_inv. rewrite (store_alter h p a v) by done.
  rewrite (store_alter _ p b (reflect.update v (reflect.path p) a))
    by apply lookup_insert_eq.
  rewrite (store_alter h p b v) by done.
  by rewrite insert_insert_eq, (update_update v _ old).
Qed.

Lemma store_field h p fs i d w x :
  reflect.load h p = Some (reflect.VStruct fs) →
  fs !! i = Some (d, w) →
  reflect.store h (reflect.sub p i) x =
  reflect.store h p (reflect.VStruct (<[i := (d, x)]> fs)).
Proof.
  intros (v & Hv & Hx)%load_inv Hi.
  rewrite (store_alter h (reflect.sub p i) x v) by done.
  rewrite (store_alter h p _ v) by done. simpl.
  by rewrite (update_field v _ fs i d w).
Qed.

(** ** FilterFields *)

Lemma IsNil_data v ro a :
  reflect.IsNil (reflect.mkValue (Some v) ro a) =
  reflect.IsNil (reflect.mkValue (Some v) false None).
Proof. reflexivity. Qed.

Lemma IsNil_not_nilable v :
  nilableKind (reflect.kindOf v) = false →
  reflect.IsNil (reflect.mkValue (Some v) false None) =
  Panic (reflect.ValueError "reflect.Value.IsNil" (reflect.kindOf v)).
Proof. by destruct v. Qed.

Lemma IsNil_nilable v :
  nilableKind (reflect.kindOf v) = true →
  returns (reflect.IsNil (reflect.mkValue (Some v) false None)).
Proof.
  destruct v as [|k n| | | | | | | | | |]; try done;
    try (intros _; by eexists). by destruct k.
Qed.

Lemma IsNil_true_Zero v :
  reflect.IsNil (reflect.mkValue (Some v) false None) = Ok true →
  reflect.Zero v = v.
Proof.
  destruct v as [|k n| |c|f|u|q|d|s| |m|]; try done;
    first [ by destruct k
          | match goal with o : option _ |- _ => by destruct o end ].
Qed.

Lemma Value_Type_Some x ro a :
  reflect.Value_Type (reflect.mkValue (Some x) ro a) = Ok x.
Proof. reflexivity. Qed.

Lemma Field_record p fs i d v :
  fs !! i = Some (d, v) →
  reflect.Field (reflect.mkValue (Some (reflect.VStruct fs)) false (Some p)) i
  = Ok (reflect.fieldValue (recordValue p fs) i (d, v)).
Proof. intros Hi. unfold reflect.Field. simpl. by rewrite Hi. Qed.

(** One round of the loop on a field of the record. *)
Lemma filterField_record h p cur fields i d v :
  reflect.load h p = Some (reflect.VStruct cur) →
  cur !! i = Some (d, v) →
  filterField (handle p) fields i h =
  match reflect.IsNil (reflect.mkValue (Some v) false None) with
  | Panic e => Panic e
  | Ok true => Ok h
  | Ok false =>
      if containsField (reflect.declName d) fields then Ok h
      else if reflect.IsExported d
      then Ok (reflect.store h (reflect.sub p i) (reflect.Zero v))
      else Panic (reflect.ReflectPanic reflect.unexportedSet)
  end.
Proof.
  intros Hp Hi. unfold filterField.
  rewrite (Elem_handle h p _ Hp), bind_Ok.
  rewrite Value_Type_Some, bind_Ok.
  rewrite (Field_record p cur i d v Hi), bind_Ok.
  rewrite fieldValue_record, IsNil_data.
  destruct (reflect.IsNil _) as [[|]|e]; try done. rewrite bind_Ok.
  unfold reflect.Type_Field. rewrite Hi, bind_Ok. simpl reflect.Name.
  destruct (containsField _ fields); [done|].
  rewrite Value_Type_Some, bind_Ok. unfold reflect.Set_. simpl.
  by destruct (reflect.IsExported d).
Qed.

Lemma filterLoop_filtered p fields rest :
  ∀ done h,
    reflect.load h p = Some (reflect.VStruct (done ++ rest)) →
    filterLoop (handle p) fields (seq (length done) (length rest)) h =
    (reflect.store h p (reflect.VStruct (done ++ (filtered fields rest).1)),
     (filtered fields rest).2).
Proof.
  induction rest as [|[d v] rest IH]; intros done h Hp.
  - simpl. by rewrite (store_id h p _ Hp).
  - assert ((done ++ (d, v) :: rest) !! length done = Some (d, v)) as Hi
      by apply list_lookup_middle, eq_refl.
    assert (∀ (y : reflect.FieldDecl * reflect.value) t,
              done ++ y :: t = (done ++ [y]) ++ t) as Hsnoc
      by (intros y t; by rewrite <- app_assoc).
    assert (∀ y : reflect.FieldDecl * reflect.value,
              S (length done) = length (done ++ [y])) as Hlen
      by (intros y; rewrite length_app; simpl; lia).
    cbn [length seq filterLoop filtered].
    rewrite (filterField_record h p _ fields _ d v Hp Hi).
    destruct (reflect.IsNil _) as [[|]|e].
    + rewrite (Hlen (d, v)), IH by (by rewrite <- Hsnoc).
      cbn [fst snd]. by rewrite <- Hsnoc.
    + destruct (containsField _ fields).
      * rewrite (Hlen (d, v)), IH by (by rewrite <- Hsnoc).
        cbn [fst snd]. by rewrite <- Hsnoc.
      * destruct (reflect.IsExported d).
        -- rewrite (store_field h p _ _ d v _ Hp Hi).
           rewrite insert_app_r_alt, Nat.sub_diag by done.
           cbn [insert list_insert].
           rewrite (Hlen (d, reflect.Zero v)), IH.
           ++ cbn [fst snd]. rewrite (store_store h p _ _ _ Hp).
              by rewrite <- Hsnoc.
           ++ rewrite <- Hsnoc. by apply (load_store h p _ _ Hp).
        -- cbn [fst snd]. by rewrite (store_id h p _ Hp).
    + cbn [fst snd]. by rewrite (store_id h p _ Hp).
Qed.

(** [FilterFields] writes to the record what [filtered] describes, and
    nothing else. *)
Lemma FilterFields_filtered h p fs fields :
  reflect.load h p = Some (reflect.VStruct fs) →
  FilterFields h (handle p) fields =
  (reflect.store h p (reflect.VStruct (filtered fields fs).1),
   (filtered fields fs).2).
Proof.
  intros Hp. unfold FilterFields.
  rewrite (Elem_handle h p _ Hp), bind_Ok.
  rewrite Value_Type_Some, bind_Ok. unfold reflect.NumField.
  cbn [reflect.data].
  apply (filterLoop_filtered p fields fs [] h Hp).
Qed.

Lemma filtered_length fields fs :
  length (filtered fields fs).1 = length fs.
Proof.
  induction fs as [|[d v] fs IH]; [done|]. cbn [filtered].
  destruct (reflect.IsNil _) as [[|]|e]; [by simpl; rewrite IH| |done].
  destruct (containsField _ fields); [by simpl; rewrite IH|].
  destruct (reflect.IsExported d); [by simpl; rewrite IH | done].
Qed.

(** Every field keeps its declaration; its value is kept or reset, and
    reset only if [IsNil] accepts it and its name is not listed. *)
Lemma filtered_lookup fields fs i d v :
  fs !! i = Some (d, v) →
  ∃ v', (filtered fields fs).1 !! i = Some (d, v') ∧
        (v' = v ∨
         (v' = reflect.Zero v ∧
          returns (reflect.IsNil (reflect.mkValue (Some v) false None)) ∧
          containsField (reflect.declName d) fields = false)).
Proof.
  revert i. induction fs as [|[d0 v0] fs IH]; intros i Hi; [done|].
  destruct i as [|i]; simpl in Hi.
  - injection Hi as -> ->. cbn [filtered].
    destruct (reflect.IsNil (reflect.mkValue (Some v) false None))
      as [[|]|e] eqn:Hnil.
    + exists v. split; [done | by left].
    + destruct (containsField (reflect.declName d) fields) eqn:Hc.
      * exists v. split; [done | by left].
      * destruct (reflect.IsExported d).
        -- exists (reflect.Zero v). split; [done|]. right.
           split; [done|]. split; [by eexists | done].
        -- exists v. split; [done | by left].
    + exists v. split; [done | by left].
  - destruct (IH i Hi) as (v' & Hv' & H). cbn [filtered].
    destruct (reflect.IsNil (reflect.mkValue (Some v0) false None))
      as [[|]|e].
    + by exists v'.
    + destruct (containsField (reflect.declName d0) fields).
      * by exists v'.
      * destruct (reflect.IsExported d0); [by exists v'|].
        exists v. split; [done | by left].
    + exists v. split; [done | by left].
Qed.

(** On a record whose fields are all of a kind [IsNil] accepts and can
    be reset where they have to, nothing stops the loop: every field
    that is not listed ends up zero. *)
Lemma filtered_returns fields fs :
  Forall (λ f, nilableKind (reflect.kindOf f.2) = true) fs →
  Forall (resettable fields) fs →
  (filtered fields fs).2 = Ok () ∧
  ∀ i d v, fs !! i = Some (d, v) → reflect.declName d ∉ fields →
           (filtered fields fs).1 !! i = Some (d, reflect.Zero v).
Proof.
  induction fs as [|[d0 v0] fs IH]; intros Hk Hr; [done|].
  apply Forall_cons in Hk as [Hk0 Hk]. apply Forall_cons in Hr as [Hr0 Hr].
  destruct (IH Hk Hr) as [Hout Hl]. clear IH. cbn [filtered].
  destruct (IsNil_nilable v0 Hk0) as [b Hb]. unfold resettable in Hr0.
  simpl in Hr0. rewrite Hb in Hr0 |- *.
  assert (∀ y, ((d0, y) :: (filtered fields fs).1, (filtered fields fs).2).2
               = Ok () ∧
               ∀ i d v, ((d0, v0) :: fs) !! i = Some (d, v) →
                 reflect.declName d ∉ fields →
                 (i = 0 → y = reflect.Zero v0) →
                 ((d0, y) :: (filtered fields fs).1,
                  (filtered fields fs).2).1 !! i
                 = Some (d, reflect.Zero v)) as Hcase.
  { intros y. split; [done|]. intros [|i] d v Hi Hn Hy; simpl in Hi |- *.
    - injection Hi as -> ->. by rewrite Hy.
    - by apply Hl. }
  destruct b.
  - destruct (Hcase v0) as [H1 H2]. split; [done|]. intros i d v Hi Hn.
    apply (H2 i d v Hi Hn). intros _. symmetry. by apply IsNil_true_Zero.
  - destruct (containsField (reflect.declName d0) fields) eqn:Hc.
    + destruct (Hcase v0) as [H1 H2]. split; [done|]. intros i d v Hi Hn.
      apply (H2 i d v Hi Hn). intros ->. simpl in Hi. injection Hi as -> ->.
      by apply containsField_true in Hc.
    + rewrite (Hr0 eq_refl) by (by apply containsField_false).
      destruct (Hcase (reflect.Zero v0)) as [H1 H2]. split; [done|].
      intros i d v Hi Hn. by apply (H2 i d v Hi Hn).
Qed.

(** A field of a kind [IsNil] refuses stops the loop with a panic, at
    that field if not before. *)
Lemma filtered_panics fields fs :
  Exists (λ f, nilableKind (reflect.kindOf f.2) = false) fs →
  panics (filtered fields fs).2.
Proof.
  induction fs as [|[d0 v0] fs IH]; intros Hex; [by apply Exists_nil in Hex|].
  cbn [filtered].
  destruct (nilableKind (reflect.kindOf v0)) eqn:Hk0.
  - apply Exists_cons in Hex as [Hex|Hex]; [simpl in Hex; congruence|].
    specialize (IH Hex).
    destruct (reflect.IsNil _) as [[|]|e]; [done| |by eexists].
    destruct (containsField _ fields); [done|].
    destruct (reflect.IsExported d0); [done | by eexists].
  - rewrite (IsNil_not_nilable v0 Hk0). by eexists.
Qed.

(** C1, amended. [FilterFields] changes the store at the record only,
    and in the record only values: a field whose name is listed keeps
    its value, a field of a kind that is not nilable keeps its value,
    and any other field is kept or reset to zero.  When the fields are
    all of nilable kind, and exported where they hold a value and are
    not listed, the call returns and every field that is not listed is
    zero.  When a field is of another kind the call panics. *)
Theorem FilterFields_spec (h : heap) (p : reflect.pointer)
    (fs : list (reflect.FieldDecl * reflect.value)) (fields : list string) :
  reflect.load h p = Some (reflect.VStruct fs) →
  ∃ fs' out,
    FilterFields h (handle p) fields
      = (reflect.store h p (reflect.VStruct fs'), out) ∧
    reflect.load (reflect.store h p (reflect.VStruct fs')) p
      = Some (reflect.VStruct fs') ∧
    length fs' = length fs ∧
    (∀ i d v, fs !! i = Some (d, v) →
       ∃ v', fs' !! i = Some (d, v') ∧
             (v' = v ∨ v' = reflect.Zero v) ∧
             (reflect.declName d ∈ fields → v' = v) ∧
             (nilableKind (reflect.kindOf v) = false → v' = v)) ∧
    (Forall (λ f, nilableKind (reflect.kindOf f.2) = true) fs →
     Forall (resettable fields) fs →
     out = Ok () ∧
     ∀ i d v, fs !! i = Some (d, v) → reflect.declName d ∉ fields →
              fs' !! i = Some (d, reflect.Zero v)) ∧
    (Exists (λ f, nilableKind (reflect.kindOf f.2) = false) fs →
     panics out).
Proof.
  intros Hp. exists (filtered fields fs).1, (filtered fields fs).2.
  split; [by apply FilterFields_filtered|].
  split; [by apply (load_store h p _ _ Hp)|].
  split; [apply filtered_length|].
  split; [|split; [apply filtered_returns | apply filtered_panics]].
  intros i d v Hi.
  destruct (filtered_lookup fields fs i d v Hi) as (v' & Hv' & H).
  exists v'. split; [done|].
  destruct H as [->|(-> & [b Hb] & Hc)]; [by repeat split; [left|..]|].
  split; [by right|]. split.
  - intros Hin%containsField_true. congruence.
  - intros Hk. rewrite (IsNil_not_nilable v Hk) in Hb. discriminate.
Qed.

(** The record and the list of the package's test [TestFilterFields]:
    [Field1] is reset, [Field2] kept. *)
Lemma FilterFields_spec_witness :
  ∃ fs', (FilterFields optionalHeap (handle (addr 1)) ["Field2"]).1
         = reflect.store optionalHeap (addr 1) (reflect.VStruct fs') ∧
         fs' !! 0 = Some (reflect.Decl "Field1" "" (json "field1"),
                          reflect.VPtr None) ∧
         fs' !! 1 = Some (reflect.Decl "Field2" "" (json "field2"),
                          reflect.VPtr (Some (addr 3))).
Proof.
  assert (reflect.load optionalHeap (addr 1)
          = Some (reflect.VStruct optionalStruct)) as Hload by reflexivity.
  destruct (FilterFields_spec optionalHeap (addr 1) optionalStruct
              ["Field2"] Hload)
    as (fs' & out & Hcall & _ & _ & Hkeep & Hreset & _).
  exists fs'. split; [by rewrite Hcall|]. split.
  - destruct Hreset as [_ Hreset].
    + repeat constructor.
    + repeat constructor; intros _ _; reflexivity.
    + apply (Hreset 0 (reflect.Decl "Field1" "" (json "field1"))
               (reflect.VPtr (Some (addr 2))) eq_refl).
      by apply containsField_false.
  - destruct (Hkeep 1 (reflect.Decl "Field2" "" (json "field2"))
                (reflect.VPtr (Some (addr 3))) eq_refl)
      as (v' & Hv' & _ & Hlisted & _).
    rewrite Hv', Hlisted; [done|]. by apply containsField_true.
Defined.

(** C1 as stated fails.  On a record with an integer field the call
    panics at that field: the optional field after it, whose name is not
    listed, keeps its pointer.  And an optional field that is unexported
    is not reset either: [Value.Set] panics on it. *)
Lemma FilterFields_not_reset :
  (FilterFields countedHeap (handle (addr 1)) []
   = (countedHeap,
      Panic (reflect.ValueError "reflect.Value.IsNil" reflect.Int)) ∧
   reflect.load countedHeap (reflect.sub (addr 1) 1)
   = Some (reflect.VPtr (Some (addr 2)))) ∧
  (FilterFields hiddenHeap (handle (addr 1)) []
   = (hiddenHeap, Panic (reflect.ReflectPanic reflect.unexportedSet)) ∧
   reflect.load hiddenHeap (reflect.sub (addr 1) 0)
   = Some (reflect.VPtr (Some (addr 2)))).
Proof. repeat split; reflexivity. Qed.

(** The call of the package's test [TestFilterMapFields]. *)
Example FilterMapFields_test :
  FilterMapFields
    {[ "field1" := Some (reflect.VNum reflect.NInt 1);
       "field2" := Some (reflect.VString "val");
       "field3" := None ]}
    ["field1"; "field3"]
  = Ok {[ "field1" := Some (reflect.VNum reflect.NInt 1) ]}.
Proof. reflexivity. Qed.

(** ** Further properties of Serialize *)

(** The entry after a handled prefix works on what the prefix left. *)
Lemma Serialize_snoc h p x pre e (r0 : ProjectionResult) :
  reflect.load h p = Some x →
  Serialize h (handle p) pre = Ok r0 →
  Serialize h (handle p) (pre ++ [e]) =
  serializeEntry h e (handle p) (reflect.mkValue (Some x) false (Some p)) x r0.
Proof.
  intros Hp Hpre.
  by rewrite (Serialize_app h p x), Hpre, bind_Ok, foldM_singleton.
Qed.

Lemma load_sub h p fs i d v :
  reflect.load h p = Some (reflect.VStruct fs) →
  fs !! i = Some (d, v) →
  reflect.load h (reflect.sub p i) = Some v.
Proof.
  intros (v0 & Hv0 & Hs)%load_inv Hi. unfold reflect.load. simpl.
  rewrite Hv0. simpl. clear Hv0. revert v0 Hs.
  induction (reflect.path p) as [|j path IH]; intros v0 Hs.
  - simpl in Hs. injection Hs as ->. simpl. by rewrite Hi.
  - apply subvalue_cons_inv in Hs
      as [(gs & d0 & w0 & -> & Hj & Hs)|(a & w0 & -> & Hj & Hs)];
      simpl; rewrite Hj; simpl; by apply IH.
Qed.

(** X3. A computed entry is handled without a look at the record: the
    pair its callback returns for the store and the model is put in the
    result, over whatever the entries before it stored under that
    name. *)
Theorem Serialize_computed (h : heap) (p : reflect.pointer)
    (x : reflect.value) (pre : list fieldSpec) (f : FieldSerializer)
    (r0 : ProjectionResult) :
  reflect.load h p = Some x →
  Serialize h (handle p) pre = Ok r0 →
  Serialize h (handle p) (pre ++ [SpecFunc f])
  = Ok (<[(f h (handle p)).1 := (f h (handle p)).2]> r0).
Proof.
  intros Hp Hpre. rewrite (Serialize_snoc h p x pre _ r0 Hp Hpre).
  simpl. by destruct (f h (handle p)).
Qed.

(** A computed entry that overwrites the leaf before it. *)
Lemma Serialize_computed_witness :
  Serialize {[ 1 := reflect.VStruct fullStruct ]} (handle (addr 1))
    ([SpecString "Field1"]
       ++ [SpecFunc (λ _ _, ("field1", Some (reflect.VBool true)))])
  = Ok {[ "field1" := Some (reflect.VBool true) ]}.
Proof.
  assert (reflect.load {[ 1 := reflect.VStruct fullStruct ]} (addr 1)
          = Some (reflect.VStruct fullStruct)) as Hload by reflexivity.
  rewrite (Serialize_computed _ _ _ [SpecString "Field1"]
             (λ _ _, ("field1", Some (reflect.VBool true)))
             {[ "field1" := Some (reflect.VString "foo") ]} Hload eq_refl).
  reflexivity.
Defined.

(** X1. A nested entry on an exported pointer field that has a json tag
    stores under the wire name the map [Serialize] returns for the
    pointer and the child list; under a nil pointer that is the empty
    map. *)
Theorem Serialize_nested_pointer (h : heap) (p : reflect.pointer)
    (fs : list (reflect.FieldDecl * reflect.value)) (pre : list fieldSpec)
    (name : string) (child : list fieldSpec) (i : nat)
    (d : reflect.FieldDecl) (q : option reflect.pointer) (w : string)
    (r0 : ProjectionResult) :
  reflect.load h p = Some (reflect.VStruct fs) →
  fieldNamed fs name i d (reflect.VPtr q) →
  wireName d = Some w →
  reflect.IsExported d = true →
  Serialize h (handle p) pre = Ok r0 →
  (∀ m, Serialize h (Some (reflect.VPtr q)) child = Ok m →
        Serialize h (handle p) (pre ++ [SpecMap [(name, child)]])
        = Ok (<[w := Some (MapValue m)]> r0)) ∧
  (q = None →
   Serialize h (handle p) (pre ++ [SpecMap [(name, child)]])
   = Ok (<[w := Some (MapValue ∅)]> r0)).
Proof.
  intros Hp Hf Hw He Hpre.
  assert (∀ m, Serialize h (Some (reflect.VPtr q)) child = Ok m →
               Serialize h (handle p) (pre ++ [SpecMap [(name, child)]])
               = Ok (<[w := Some (MapValue m)]> r0)) as Hnested.
  { intros m Hm. rewrite (Serialize_snoc h p _ pre _ r0 Hp Hpre).
    change (reflect.mkValue (Some (reflect.VStruct fs)) false (Some p))
      with (recordValue p fs).
    rewrite (serializeEntry_nested_record h p fs name child [] i d _ r0 Hf).
    rewrite Hw, fieldValue_record, He. simpl reflect.kindOf. cbv iota.
    unfold reflect.Value_Interface. simpl. by rewrite Hm. }
  split; [exact Hnested|]. intros ->. by apply Hnested.
Qed.

(** The record and the list of the package's test
    [TestSerializeNestedStruct]. *)
Lemma Serialize_nested_pointer_witness :
  Serialize nestedPtrHeap (handle (addr 1))
    ([SpecString "Field1"] ++ [SpecMap [("Field2", [SpecString "FieldNested"])]])
  = Ok {[ "field1" := Some (reflect.VString "foo");
          "field2" := Some (MapValue
                              {[ "fieldNested" := Some (reflect.VBool true) ]}) ]}.
Proof.
  assert (reflect.load nestedPtrHeap (addr 1)
          = Some (reflect.VStruct nestedPtrStruct)) as Hload by reflexivity.
  rewrite (proj1 (Serialize_nested_pointer nestedPtrHeap (addr 1)
    nestedPtrStruct [SpecString "Field1"] "Field2"
    [SpecString "FieldNested"] 1
    (reflect.Decl "Field2" "" (json "field2")) (Some (addr 2)) "field2"
    {[ "field1" := Some (reflect.VString "foo") ]}
    Hload eq_refl eq_refl eq_refl eq_refl)
    {[ "fieldNested" := Some (reflect.VBool true) ]} eq_refl).
  reflexivity.
Defined.

(** X2. A nested entry on an exported field that holds a record by value
    and has a json tag stores under the wire name the map [Serialize]
    returns for the address of that field and the child list. *)
Theorem Serialize_nested_record (h : heap) (p : reflect.pointer)
    (fs : list (reflect.FieldDecl * reflect.value)) (pre : list fieldSpec)
    (name : string) (child : list fieldSpec) (i : nat)
    (d : reflect.FieldDecl) (gs : list (reflect.FieldDecl * reflect.value))
    (w : string) (r0 m : ProjectionResult) :
  reflect.load h p = Some (reflect.VStruct fs) →
  fieldNamed fs name i d (reflect.VStruct gs) →
  wireName d = Some w →
  reflect.IsExported d = true →
  Serialize h (handle p) pre = Ok r0 →
  Serialize h (handle (reflect.sub p i)) child = Ok m →
  reflect.load h (reflect.sub p i) = Some (reflect.VStruct gs) ∧
  Serialize h (handle p) (pre ++ [SpecMap [(name, child)]])
  = Ok (<[w := Some (MapValue m)]> r0).
Proof.
  intros Hp Hf Hw He Hpre Hm. split.
  - apply (load_sub h p fs i d _ Hp). unfold fieldNamed in Hf.
    by apply list_find_Some in Hf as (Hi & _).
  - rewrite (Serialize_snoc h p _ pre _ r0 Hp Hpre).
    change (reflect.mkValue (Some (reflect.VStruct fs)) false (Some p))
      with (recordValue p fs).
    rewrite (serializeEntry_nested_record h p fs name child [] i d _ r0 Hf).
    rewrite Hw, fieldValue_record, He. simpl reflect.kindOf. cbv iota.
    unfold reflect.Addr, reflect.Value_Interface. simpl.
    change (Some (reflect.VPtr (Some (reflect.sub p i))))
      with (handle (reflect.sub p i)).
    by rewrite Hm.
Qed.

(** A record held by value in the record at 1. *)
Lemma Serialize_nested_record_witness :
  Serialize {[ 1 := reflect.VStruct embeddedStruct ]} (handle (addr 1))
    ([] ++ [SpecMap [("Field1", [SpecString "FieldNested"])]])
  = Ok {[ "field" := Some (MapValue
                             {[ "fieldNested" := Some (reflect.VBool true) ]}) ]}.
Proof.
  assert (reflect.load {[ 1 := reflect.VStruct embeddedStruct ]} (addr 1)
          = Some (reflect.VStruct embeddedStruct)) as Hload by reflexivity.
  apply (proj2 (Serialize_nested_record _ (addr 1) embeddedStruct []
    "Field1" [SpecString "FieldNested"] 0
    (reflect.Decl "Field1" "" (json "field"))
    [(reflect.Decl "FieldNested" "" (json "fieldNested"), reflect.VBool true)]
    "field" ∅ {[ "fieldNested" := Some (reflect.VBool true) ]}
    Hload eq_refl eq_refl eq_refl eq_refl eq_refl)).
Defined.

(** X4. An entry, leaf or nested, that names a field the record does not
    have makes [Serialize] panic; when the entries before it are
    handled, the panic is the one for a missing json tag, and the name
    its message quotes is the empty name of the zero StructField, not
    the name that was asked for. *)
Theorem Serialize_field_absent (h : heap) (p : reflect.pointer)
    (fs : list (reflect.FieldDecl * reflect.value))
    (pre post : list fieldSpec) (name : string) (child : list fieldSpec)
    (rest : list (string * list fieldSpec)) (e : fieldSpec) :
  reflect.load h p = Some (reflect.VStruct fs) →
  reflect.findField name fs = None →
  e = SpecString name ∨ e = SpecMap ((name, child) :: rest) →
  panics (Serialize h (handle p) (pre ++ e :: post)) ∧
  (returns (Serialize h (handle p) pre) →
   Serialize h (handle p) (pre ++ e :: post)
   = Panic (reflect.PanicString
              ("Field " +:+ dquote +:+ "" +:+ dquote +:+ " has no json tag"))).
Proof.
  intros Hp Hf He.
  apply (Serialize_entry_panics h p (reflect.VStruct fs)); [done|].
  intros r. destruct He as [-> | ->].
  - simpl. unfold serializeStrField, reflect.Value_FieldByName,
      reflect.Type_FieldByName. simpl. by rewrite Hf.
  - rewrite serializeEntry_nested_cons.
    unfold reflect.Type_FieldByName. by rewrite Hf.
Qed.

(** A leaf entry for a field [fullStruct] does not have. *)
Lemma Serialize_field_absent_witness :
  Serialize {[ 1 := reflect.VStruct fullStruct ]} (handle (addr 1))
    [SpecString "Field3"]
  = Panic (reflect.PanicString
             ("Field " +:+ dquote +:+ "" +:+ dquote +:+ " has no json tag")).
Proof.
  assert (reflect.load {[ 1 := reflect.VStruct fullStruct ]} (addr 1)
          = Some (reflect.VStruct fullStruct)) as Hload by reflexivity.
  apply (proj2 (Serialize_field_absent _ (addr 1) fullStruct [] []
    "Field3" [] [] (SpecString "Field3") Hload eq_refl (or_introl eq_refl))).
  eexists. reflexivity.
Defined.

(** X5. When the model points to something that is not a struct, a leaf
    or nested entry makes [Serialize] panic inside reflect: at
    [Value.FieldByName] for a leaf, at [Type.FieldByName] for a nested
    entry. *)
Theorem Serialize_not_a_struct (h : heap) (p : reflect.pointer)
    (x : reflect.value) (pre post : list fieldSpec) (name : string)
    (child : list fieldSpec) (rest : list (string * list fieldSpec)) :
  reflect.load h p = Some x →
  reflect.kindOf x ≠ reflect.Struct →
  (returns (Serialize h (handle p) pre) →
   Serialize h (handle p) (pre ++ SpecString name :: post)
   = Panic (reflect.ValueError "reflect.Value.FieldByName"
              (reflect.kindOf x))) ∧
  (returns (Serialize h (handle p) pre) →
   Serialize h (handle p) (pre ++ SpecMap ((name, child) :: rest) :: post)
   = Panic (reflect.ReflectPanic "reflect: FieldByName of non-struct type")).
Proof.
  intros Hp Hk. split.
  - apply (Serialize_entry_panics h p x); [done|]. intros r. simpl.
    unfold serializeStrField, reflect.Value_FieldByName. simpl.
    by destruct x.
  - apply (Serialize_entry_panics h p x); [done|]. intros r.
    rewrite serializeEntry_nested_cons. unfold reflect.Type_FieldByName.
    by destruct x.
Qed.

(** A pointer to an integer as model. *)
Lemma Serialize_not_a_struct_witness :
  Serialize intPtrHeap (handle (addr 2)) [SpecString "Field1"]
  = Panic (reflect.ValueError "reflect.Value.FieldByName" reflect.Int).
Proof.
  assert (reflect.load intPtrHeap (addr 2)
          = Some (reflect.VNum reflect.NInt 7)) as Hload by reflexivity.
  apply (proj1 (Serialize_not_a_struct intPtrHeap (addr 2) _ [] []
    "Field1" [] [] Hload ltac:(discriminate))).
  eexists. reflexivity.
Defined.

(** X6. A leaf entry naming an unexported field that has a json tag
    makes [Serialize] panic; when the entries before it are handled, the
    panic is the one of [Value.Interface]. *)
Theorem Serialize_leaf_unexported (h : heap) (p : reflect.pointer)
    (fs : list (reflect.FieldDecl * reflect.value))
    (pre post : list fieldSpec) (name : string) (i : nat)
    (d : reflect.FieldDecl) (v : reflect.value) (w : string) :
  reflect.load h p = Some (reflect.VStruct fs) →
  fieldNamed fs name i d v →
  wireName d = Some w →
  reflect.IsExported d = false →
  panics (Serialize h (handle p) (pre ++ SpecString name :: post)) ∧
  (returns (Serialize h (handle p) pre) →
   Serialize h (handle p) (pre ++ SpecString name :: post)
   = Panic (reflect.ReflectPanic reflect.unexportedInterface)).
Proof.
  intros Hp Hf Hw He.
  apply (Serialize_entry_panics h p (reflect.VStruct fs)); [done|].
  intros r. simpl.
  change (reflect.mkValue (Some (reflect.VStruct fs)) false (Some p))
    with (recordValue p fs).
  by rewrite (serializeStrField_record p fs name i d v r Hf), Hw, He.
Qed.

(** The unexported field of [unexportedStruct]. *)
Lemma Serialize_leaf_unexported_witness :
  panics (Serialize {[ 1 := reflect.VStruct unexportedStruct ]}
            (handle (addr 1)) [SpecString "field1"]).
Proof.
  assert (reflect.load {[ 1 := reflect.VStruct unexportedStruct ]} (addr 1)
          = Some (reflect.VStruct unexportedStruct)) as Hload by reflexivity.
  apply (proj1 (Serialize_leaf_unexported _ (addr 1) unexportedStruct [] []
    "field1" 0 (reflect.Decl "field1" "main" (json "field1"))
    (reflect.VString "foo") "field1" Hload eq_refl eq_refl eq_refl)).
Defined.

(** [serializeArrayField] on the sequence of an unexported field: the
    first element, if there is one, cannot be handed out. *)
Lemma serializeArrayField_unexported
    (S : iface → res panic ProjectionResult) v a R name
    (r : ProjectionResult) :
  elements v = Some R →
  serializeArrayField S (reflect.mkValue (Some v) true a) name r =
  match R with
  | [] => Ok (<[name := sequenceValue []]> r)
  | _ :: _ => Panic (reflect.ReflectPanic reflect.unexportedInterface)
  end.
Proof.
  intros Hv. unfold serializeArrayField.
  rewrite (Len_elements v true a R Hv), bind_Ok.
  destruct R as [|x R]; [done|].
  unfold for_range. cbn [length seq]. rewrite foldM_cons.
  assert (reflect.Index (reflect.mkValue (Some v) true a) 0
          = Ok (reflect.mkValue (Some x) true
                  (match v with
                   | reflect.VArray _ => (λ q, reflect.sub q 0) <$> a
                   | _ => None
                   end))) as ->.
  { destruct v; try discriminate Hv; injection Hv as Hv;
      unfold reflect.Index; simpl; by rewrite Hv. }
  done.
Qed.

(** X7. A nested entry on an unexported field that has a json tag makes
    [Serialize] panic when the field is a pointer, a record, or a
    sequence that is not empty: reflect hands out nothing reached
    through an unexported field.  *)
Theorem Serialize_nested_unexported (h : heap) (p : reflect.pointer)
    (fs : list (reflect.FieldDecl * reflect.value))
    (pre post : list fieldSpec) (name : string) (child : list fieldSpec)
    (rest : list (string * list fieldSpec)) (i : nat)
    (d : reflect.FieldDecl) (v : reflect.value) (w : string) :
  reflect.load h p = Some (reflect.VStruct fs) →
  fieldNamed fs name i d v →
  wireName d = Some w →
  reflect.IsExported d = false →
  reflect.kindOf v = reflect.Ptr ∨ reflect.kindOf v = reflect.Struct ∨
    (∃ x R, elements v = Some (x :: R)) →
  panics (Serialize h (handle p)
            (pre ++ SpecMap ((name, child) :: rest) :: post)) ∧
  (returns (Serialize h (handle p) pre) →
   Serialize h (handle p) (pre ++ SpecMap ((name, child) :: rest) :: post)
   = Panic (reflect.ReflectPanic reflect.unexportedInterface)).
Proof.
  intros Hp Hf Hw He Hv.
  apply (Serialize_entry_panics h p (reflect.VStruct fs)); [done|].
  intros r.
  change (reflect.mkValue (Some (reflect.VStruct fs)) false (Some p))
    with (recordValue p fs).
  rewrite (serializeEntry_nested_record h p fs name child rest i d v r Hf).
  rewrite Hw, fieldValue_record, He. simpl negb.
  destruct Hv as [Hk|[Hk|(x & R & Hv)]].
  - by rewrite Hk.
  - by rewrite Hk.
  - assert (serializeArrayField (λ y, Serialize h y child)
              (reflect.mkValue (Some v) true (Some (reflect.sub p i))) w r
            = Panic (reflect.ReflectPanic reflect.unexportedInterface))
      as Harr by (by rewrite (serializeArrayField_unexported _ v _ _ w r Hv)).
    destruct v; try discriminate Hv; simpl reflect.kindOf; cbv iota;
      by rewrite Harr.
Qed.

(** The unexported slice of [unexportedSliceStruct]. *)
Lemma Serialize_nested_unexported_witness :
  Serialize unexportedSliceHeap (handle (addr 1))
    [SpecMap [("field1", [SpecString "FieldNested"])]]
  = Panic (reflect.ReflectPanic reflect.unexportedInterface).
Proof.
  assert (reflect.load unexportedSliceHeap (addr 1)
          = Some (reflect.VStruct unexportedSliceStruct))
    as Hload by reflexivity.
  apply (proj2 (Serialize_nested_unexported unexportedSliceHeap (addr 1)
    unexportedSliceStruct [] [] "field1" [SpecString "FieldNested"] [] 0
    (reflect.Decl "field1" "main" (json "field"))
    (reflect.VSlice (Some [reflect.VPtr (Some (addr 2));
                           reflect.VPtr (Some (addr 3))]))
    "field" Hload eq_refl eq_refl eq_refl
    (or_intror (or_intror (ex_intro _ _ (ex_intro _ _ eq_refl)))))).
  eexists. reflexivity.
Defined.

(** X8. An empty sequence is projected even under an unexported name:
    with no element to hand out, reflect has nothing to refuse, and the
    entry stores an empty sequence under the wire name. *)
Theorem Serialize_nested_unexported_empty (h : heap) (p : reflect.pointer)
    (fs : list (reflect.FieldDecl * reflect.value)) (pre : list fieldSpec)
    (name : string) (child : list fieldSpec) (i : nat)
    (d : reflect.FieldDecl) (v : reflect.value) (w : string)
    (r0 : ProjectionResult) :
  reflect.load h p = Some (reflect.VStruct fs) →
  fieldNamed fs name i d v →
  wireName d = Some w →
  reflect.IsExported d = false →
  elements v = Some [] →
  Serialize h (handle p) pre = Ok r0 →
  Serialize h (handle p) (pre ++ [SpecMap [(name, child)]])
  = Ok (<[w := sequenceValue []]> r0).
Proof.
  intros Hp Hf Hw He Hv Hpre.
  rewrite (Serialize_snoc h p _ pre _ r0 Hp Hpre).
  change (reflect.mkValue (Some (reflect.VStruct fs)) false (Some p))
    with (recordValue p fs).
  rewrite (serializeEntry_nested_record h p fs name child [] i d v r0 Hf).
  rewrite Hw, fieldValue_record, He. simpl negb.
  assert (serializeArrayField (λ y, Serialize h y child)
            (reflect.mkValue (Some v) true (Some (reflect.sub p i))) w r0
          = Ok (<[w := sequenceValue []]> r0))
    as Harr by (by rewrite (serializeArrayField_unexported _ v _ _ w r0 Hv)).
  destruct v; try discriminate Hv; simpl reflect.kindOf; cbv iota;
    by rewrite Harr.
Qed.

(** The nil slice of [hiddenNilSliceStruct]. *)
Lemma Serialize_nested_unexported_empty_witness :
  Serialize {[ 1 := reflect.VStruct hiddenNilSliceStruct ]} (handle (addr 1))
    ([] ++ [SpecMap [("field1", [SpecString "FieldNested"])]])
  = Ok {[ "field" := sequenceValue [] ]}.
Proof.
  assert (reflect.load {[ 1 := reflect.VStruct hiddenNilSliceStruct ]}
            (addr 1) = Some (reflect.VStruct hiddenNilSliceStruct))
    as Hload by reflexivity.
  apply (Serialize_nested_unexported_empty _ (addr 1) hiddenNilSliceStruct
    [] "field1" [SpecString "FieldNested"] 0
    (reflect.Decl "field1" "main" (json "field")) (reflect.VSlice None)
    "field" ∅ Hload eq_refl eq_refl eq_refl eq_refl eq_refl).
Defined.

(** The first pair of a mapping is handled as a mapping of its own, the
    others after it. *)
Lemma serializeEntry_nested_split h kv rest model elem modelType
    (r : ProjectionResult) :
  serializeEntry h (SpecMap (kv :: rest)) model elem modelType r =
  (r' ← serializeEntry h (SpecMap [kv]) model elem modelType r;
   serializeEntry h (SpecMap rest) model elem modelType r').
Proof.
  destruct kv as [name child]. rewrite !serializeEntry_nested_cons.
  destruct (reflect.Type_FieldByName modelType name) as [ft|]; [|done].
  rewrite !bind_Ok.
  destruct (getSerializedName ft.1) as [w|]; [|done]. rewrite !bind_Ok.
  destruct (reflect.Value_FieldByName elem name) as [fv|]; [|done].
  rewrite !bind_Ok.
  destruct (reflect.Type_Kind (reflect.Type_ ft.1)) as [k|]; [|done].
  rewrite !bind_Ok.
  match goal with
  | |- (?m ≫= _) = _ => destruct m as [r'|]; [|done]
  end.
  by rewrite !bind_Ok.
Qed.

Lemma serializeEntry_singleKeys h m model elem modelType
    (r : ProjectionResult) :
  serializeEntry h (SpecMap m) model elem modelType r =
  foldM (λ name result, serializeEntry h name model elem modelType result)
        (singleKeys m) r.
Proof.
  revert r. induction m as [|kv m IH]; intros r; [done|].
  rewrite serializeEntry_nested_split. unfold singleKeys. simpl fmap.
  rewrite foldM_cons.
  destruct (serializeEntry h (SpecMap [kv]) model elem modelType r)
    as [r'|]; [|done].
  rewrite !bind_Ok. apply IH.
Qed.

(** X9. A mapping with several keys works as so many mappings of one
    key, in the order [range] yields the keys; one with no key as no
    entry at all. *)
Theorem Serialize_mapping_split (h : heap) (model : iface)
    (pre post : list fieldSpec) (m : list (string * list fieldSpec)) :
  Serialize h model (pre ++ SpecMap m :: post)
  = Serialize h model (pre ++ singleKeys m ++ post).
Proof.
  rewrite !Serialize_unfold.
  destruct (reflect.IsNil (reflect.ValueOf model)) as [[|]|]; try done.
  rewrite !bind_Ok.
  destruct (reflect.Elem h (reflect.ValueOf model)) as [elem|]; [|done].
  rewrite !bind_Ok.
  destruct (reflect.Value_Type elem) as [modelType|]; [|done].
  rewrite !bind_Ok, !foldM_app.
  destruct (foldM _ pre ∅) as [r|]; [|done]. rewrite !bind_Ok.
  rewrite foldM_cons, serializeEntry_singleKeys, (foldM_app _ (singleKeys m)).
  by destruct (foldM _ (singleKeys m) r).
Qed.

(** X10. What a nested entry stores for an exported sequence field that
    has a json tag is what [SerializeList] returns for the sequence and
    the child list; and it panics as [SerializeList] does. *)
Theorem Serialize_nested_sequence_SerializeList (h : heap)
    (p : reflect.pointer) (fs : list (reflect.FieldDecl * reflect.value))
    (pre : list fieldSpec) (name : string) (child : list fieldSpec)
    (i : nat) (d : reflect.FieldDecl) (v : reflect.value) (w : string)
    (R : list reflect.value) (r0 : ProjectionResult) :
  reflect.load h p = Some (reflect.VStruct fs) →
  fieldNamed fs name i d v →
  wireName d = Some w →
  reflect.IsExported d = true →
  elements v = Some R →
  Serialize h (handle p) pre = Ok r0 →
  Serialize h (handle p) (pre ++ [SpecMap [(name, child)]])
  = (ms ← SerializeList h (Some v) child;
     Ok (<[w := sequenceValue ms]> r0)).
Proof.
  intros Hp Hf Hw He Hv Hpre.
  rewrite (Serialize_snoc h p _ pre _ r0 Hp Hpre).
  change (reflect.mkValue (Some (reflect.VStruct fs)) false (Some p))
    with (recordValue p fs).
  rewrite (serializeEntry_nested_record h p fs name child [] i d v r0 Hf).
  rewrite Hw, fieldValue_record, He. simpl negb.
  rewrite (SerializeList_elements h v R child Hv).
  assert (serializeArrayField (λ y, Serialize h y child)
            (reflect.mkValue (Some v) false (Some (reflect.sub p i))) w r0
          = (ms ← mapM_res (λ x, Serialize h (reflect.dynamic x) child) R;
             Ok (<[w := sequenceValue ms]> r0)))
    as Harr
    by apply (serializeArrayField_elements (λ y, Serialize h y child)
                v _ R w r0 Hv).
  destruct v; try discriminate Hv; simpl reflect.kindOf; cbv iota;
    rewrite Harr; by destruct (mapM_res _ R).
Qed.

(** The record of [TestSerializeFieldWithArrayOfStructs]: the array of
    its field, given to [SerializeList], yields the two maps the nested
    entry stores. *)
Lemma Serialize_nested_sequence_SerializeList_witness :
  Serialize arrayHeap (handle (addr 1))
    ([] ++ [SpecMap [("Field1", [SpecString "FieldNested"])]])
  = (ms ← SerializeList arrayHeap
            (Some (reflect.VArray [reflect.VPtr (Some (addr 2));
                                   reflect.VPtr (Some (addr 3))]))
            [SpecString "FieldNested"];
     Ok (<["field" := sequenceValue ms]> ∅)).
Proof.
  assert (reflect.load arrayHeap (addr 1) = Some (reflect.VStruct arrayStruct))
    as Hload by reflexivity.
  apply (Serialize_nested_sequence_SerializeList arrayHeap (addr 1)
    arrayStruct [] "Field1" [SpecString "FieldNested"] 0
    (reflect.Decl "Field1" "" (json "field")) _ "field"
    [reflect.VPtr (Some (addr 2)); reflect.VPtr (Some (addr 3))] ∅
    Hload eq_refl eq_refl eq_refl eq_refl eq_refl).
Defined.

(** ** Further properties of SerializeList *)



(** X12. The elements of the sequence have to be pointers (or of another
    nilable kind): on a sequence whose first element is a record held by
    value, a number, a string, [SerializeList] panics at the null check
    of [Serialize], whatever the list. *)
Theorem SerializeList_of_values (h : heap) (v x : reflect.value)
    (R : list reflect.value) (fields : list fieldSpec) :
  elements v = Some (x :: R) →
  nilableKind (reflect.kindOf x) = false →
  SerializeList h (Some v) fields
  = Panic (reflect.ValueError "reflect.Value.IsNil" (reflect.kindOf x)).
Proof.
  intros Hv Hk. rewrite (SerializeList_elements h v _ fields Hv).
  cbn [mapM_res]. rewrite Serialize_unfold.
  assert (reflect.dynamic x = Some x) as -> by (by destruct x).
  assert (reflect.ValueOf (Some x) = reflect.mkValue (Some x) false None)
    as -> by (by destruct x).
  by rewrite (IsNil_not_nilable x Hk).
Qed.

(** A slice of records held by value. *)
Lemma SerializeList_of_values_witness :
  SerializeList ∅ (Some (reflect.VSlice (Some [nested true; nested false])))
    [SpecString "FieldNested"]
  = Panic (reflect.ValueError "reflect.Value.IsNil" reflect.Struct).
Proof.
  apply (SerializeList_of_values ∅
    (reflect.VSlice (Some [nested true; nested false])) (nested true)
    [nested false] [SpecString "FieldNested"] eq_refl eq_refl).
Defined.

(** ** Further properties of the helpers *)

(** X13. [containsField] decides membership in the list: it is true
    exactly when the name is one of its elements. *)
Theorem containsField_decides (field : string) (fields : list string) :
  containsField field fields = bool_decide (field ∈ fields).
Proof.
  destruct (containsField field fields) eqn:Hc; symmetry.
  - by apply bool_decide_eq_true, containsField_true.
  - by apply bool_decide_eq_false, containsField_false.
Qed.

(** X14. [isNilInterface] never panics, and it is true for the nil
    interface and for a nil pointer only: a nil map, slice, func or
    channel held in the interface is not nil to it. *)
Theorem isNilInterface_spec (v : iface) :
  ∃ b, isNilInterface v = Ok b ∧ (b = true ↔ nullReference v).
Proof.
  exists (isNull v). split; [apply isNilInterface_isNull|].
  apply isNull_nullReference.
Qed.

(** ** Further properties of FilterFields *)

(** [FilterFields] reads its model through [ValueOf] only. *)
Lemma filterLoop_ValueOf model model' fields idx h :
  reflect.ValueOf model = reflect.ValueOf model' →
  filterLoop model fields idx h = filterLoop model' fields idx h.
Proof.
  intros Hm. revert h. induction idx as [|i idx IH]; intros h; [done|].
  simpl. unfold filterField. rewrite Hm.
  by destruct (_ ≫= _) as [h'|].
Qed.

Lemma FilterFields_ValueOf h model model' fields :
  reflect.ValueOf model = reflect.ValueOf model' →
  FilterFields h model fields = FilterFields h model' fields.
Proof.
  intros Hm. unfold FilterFields. rewrite Hm.
  destruct (_ ≫= _) as [n|]; [|done]. by apply filterLoop_ValueOf.
Qed.

(** Either the model is a handle to a record, or the call panics before
    the loop, the store as it was. *)
Lemma FilterFields_cases h model fields :
  (∃ p fs, reflect.ValueOf model = reflect.ValueOf (handle p) ∧
           reflect.load h p = Some (reflect.VStruct fs)) ∨
  (∃ e, FilterFields h model fields = (h, Panic e)).
Proof.
  pose proof (ValueOf_not_iface model) as Hi.
  unfold FilterFields, reflect.Elem, reflect.ValueOf in *. simpl in *.
  destruct (model ≫= reflect.dynamic) as [x|]; [|right; by eexists].
  destruct x as [| | | | | |[p|]|d| | | |]; try (right; by eexists).
  - destruct (reflect.load h p) as [y|] eqn:Hp; [|right; by eexists].
    destruct y; try (right; by eexists). left. by eexists _, _.
  - by destruct (Hi d).
Qed.

(** X15. Unlike [Serialize], [FilterFields] has no graceful path: on
    anything but a handle to a record -- the nil handle, a typeless nil,
    a record passed by value, a pointer to something else -- it panics,
    and the store is as it was. *)
Theorem FilterFields_not_a_record (h : heap) (model : iface)
    (fields : list string) :
  (∀ p fs, reflect.ValueOf model = reflect.ValueOf (handle p) →
           reflect.load h p ≠ Some (reflect.VStruct fs)) →
  ∃ e, FilterFields h model fields = (h, Panic e).
Proof.
  intros Hno.
  destruct (FilterFields_cases h model fields) as [(p & fs & Hm & Hp)|He];
    [|done].
  by destruct (Hno p fs Hm).
Qed.

(** The nil handle. *)
Lemma FilterFields_not_a_record_witness :
  ∃ e, FilterFields optionalHeap nilHandle ["Field2"]
       = (optionalHeap, Panic e).
Proof.
  apply (FilterFields_not_a_record optionalHeap nilHandle ["Field2"]).
  intros p fs Hm. discriminate Hm.
Defined.

(** X16. [FilterFields] is shallow: whatever the model and however the
    call ends, no object of the store other than the one the model
    points into is changed -- what the fields of the record point to
    stays as it was. *)
Theorem FilterFields_frame (h : heap) (model : iface)
    (fields : list string) (l : reflect.loc) :
  (∀ p, reflect.ValueOf model = reflect.ValueOf (handle p) →
        reflect.base p ≠ l) →
  (FilterFields h model fields).1 !! l = h !! l.
Proof.
  intros Hl.
  destruct (FilterFields_cases h model fields) as [(p & fs & Hm & Hp)|[e He]].
  - rewrite (FilterFields_ValueOf h model (handle p) fields Hm).
    rewrite (FilterFields_filtered h p fs fields Hp). simpl.
    unfold reflect.store. apply lookup_alter_ne. by apply Hl.
  - by rewrite He.
Qed.

(** The variables the fields of [optionalStruct] point to, at 2 and 3,
    are not touched when the record at 1 is filtered. *)
Lemma FilterFields_frame_witness :
  (FilterFields optionalHeap (handle (addr 1)) []).1 !! 2
  = Some (reflect.VString "foo").
Proof.
  rewrite (FilterFields_frame optionalHeap (handle (addr 1)) [] 2);
    [reflexivity|].
  intros p Hm. injection Hm as <-. discriminate.
Defined.

Lemma IsNil_Zero v :
  returns (reflect.IsNil (reflect.mkValue (Some v) false None)) →
  reflect.IsNil (reflect.mkValue (Some (reflect.Zero v)) false None)
  = Ok true.
Proof.
  intros [b Hb]. by destruct v.
Qed.

(** A second pass over what a first pass that returned has left changes
    nothing. *)
Lemma filtered_idempotent fields fs :
  (filtered fields fs).2 = Ok () →
  filtered fields (filtered fields fs).1 = ((filtered fields fs).1, Ok ()).
Proof.
  induction fs as [|[d v] fs IH]; [done|]. cbn [filtered].
  destruct (reflect.IsNil (reflect.mkValue (Some v) false None))
    as [[|]|e] eqn:Hnil; [| |done].
  - cbn [fst snd]. intros Hout. cbn [filtered]. rewrite Hnil.
    by rewrite (IH Hout).
  - destruct (containsField (reflect.declName d) fields) eqn:Hc.
    + cbn [fst snd]. intros Hout. cbn [filtered]. rewrite Hnil, Hc.
      by rewrite (IH Hout).
    + destruct (reflect.IsExported d); [|done].
      cbn [fst snd]. intros Hout. cbn [filtered].
      rewrite IsNil_Zero by (by eexists). by rewrite (IH Hout).
Qed.

(** X17. [FilterFields] is idempotent: called again on a record it has
    filtered without a panic, with the same list, it returns and leaves
    the store as the first call left it. *)
Theorem FilterFields_idempotent (h : heap) (p : reflect.pointer)
    (fs : list (reflect.FieldDecl * reflect.value)) (fields : list string) :
  reflect.load h p = Some (reflect.VStruct fs) →
  (FilterFields h (handle p) fields).2 = Ok () →
  FilterFields (FilterFields h (handle p) fields).1 (handle p) fields
  = ((FilterFields h (handle p) fields).1, Ok ()).
Proof.
  intros Hp. rewrite (FilterFields_filtered h p fs fields Hp). simpl.
  intros Hout.
  pose proof (load_store h p _ (reflect.VStruct (filtered fields fs).1) Hp)
    as Hp'.
  rewrite (FilterFields_filtered _ p _ fields Hp').
  rewrite (filtered_idempotent fields fs Hout). simpl.
  by rewrite (store_id _ p _ Hp').
Qed.

(** The call of [TestFilterFields], made twice. *)
Lemma FilterFields_idempotent_witness :
  FilterFields
    (FilterFields optionalHeap (handle (addr 1)) ["Field2"]).1
    (handle (addr 1)) ["Field2"]
  = ((FilterFields optionalHeap (handle (addr 1)) ["Field2"]).1, Ok ()).
Proof.
  assert (reflect.load optionalHeap (addr 1)
          = Some (reflect.VStruct optionalStruct)) as Hload by reflexivity.
  apply (FilterFields_idempotent optionalHeap (addr 1) optionalStruct
           ["Field2"] Hload eq_refl).
Defined.

Lemma filtered_all_listed fields fs :
  Forall (λ f, nilableKind (reflect.kindOf f.2) = true ∧
               reflect.declName f.1 ∈ fields) fs →
  filtered fields fs = (fs, Ok ()).
Proof.
  induction 1 as [|[d v] fs [Hk Hin] _ IH]; [done|].
  cbn [filtered]. simpl in Hk, Hin.
  destruct (IsNil_nilable v Hk) as [b ->].
  apply containsField_true in Hin. rewrite Hin, IH. by destruct b.
Qed.

(** X18. When every field of the record is of nilable kind and listed,
    [FilterFields] returns and changes nothing, exported fields or
    not. *)
Theorem FilterFields_all_listed (h : heap) (p : reflect.pointer)
    (fs : list (reflect.FieldDecl * reflect.value)) (fields : list string) :
  reflect.load h p = Some (reflect.VStruct fs) →
  Forall (λ f, nilableKind (reflect.kindOf f.2) = true ∧
               reflect.declName f.1 ∈ fields) fs →
  FilterFields h (handle p) fields = (h, Ok ()).
Proof.
  intros Hp Hall. rewrite (FilterFields_filtered h p fs fields Hp).
  rewrite (filtered_all_listed fields fs Hall). simpl.
  by rewrite (store_id h p _ Hp).
Qed.

(** The unexported field of [hiddenStruct], listed. *)
Lemma FilterFields_all_listed_witness :
  FilterFields hiddenHeap (handle (addr 1)) ["field1"] = (hiddenHeap, Ok ()).
Proof.
  assert (reflect.load hiddenHeap (addr 1)
          = Some (reflect.VStruct hiddenStruct)) as Hload by reflexivity.
  apply (FilterFields_all_listed hiddenHeap (addr 1) hiddenStruct
           ["field1"] Hload).
  repeat constructor.
Defined.

(** ** Further properties of FilterMapFields *)

(** What the map is left with, entry by entry. *)
Lemma FilterMapFields_lookup (mapData : ProjectionResult)
    (fields : list string) :
  ∃ mapData' : ProjectionResult,
    FilterMapFields mapData fields = Ok mapData' ∧
    ∀ k v, mapData' !! k = Some v ↔
           mapData !! k = Some v ∧ deleted fields (k, v) = false.
Proof.
  destruct (FilterMapFields_rounds fields (map_to_list mapData) mapData)
    as (m' & Hm' & Hl).
  exists m'. split; [exact Hm'|]. intros k v. rewrite Hl. split.
  - intros [Hk Hall]. split; [done|]. apply Hall.
    by apply elem_of_map_to_list.
  - intros [Hk Hd]. split; [done|]. intros v' Hv'%elem_of_map_to_list.
    by assert (v' = v) as -> by congruence.
Qed.

Lemma deleted_false fields k v :
  deleted fields (k, v) = false ↔ k ∈ fields ∧ ¬ nullReference v.
Proof.
  unfold deleted. simpl.
  rewrite orb_false_iff, negb_false_iff, containsField_true.
  rewrite <- isNull_nullReference. by destruct (isNull v); intuition.
Qed.

(** X19. The order in which [range] yields the entries of the map does
    not matter: the rounds of [FilterMapFields], run over the entries in
    any order, leave the map as [FilterMapFields] leaves it. *)
Theorem FilterMapFields_any_order (mapData : ProjectionResult)
    (fields : list string) (l : list (string * iface)) :
  l ≡ₚ map_to_list mapData →
  foldM (λ (kv : string * iface) (mapData : ProjectionResult),
    if negb (containsField kv.1 fields) then Ok (delete kv.1 mapData) else
    isNil ← isNilInterface kv.2;
    if isNil : bool then Ok (delete kv.1 mapData) else Ok mapData)
    l mapData
  = FilterMapFields mapData fields.
Proof.
  intros Hperm.
  destruct (FilterMapFields_rounds fields l mapData) as (m1 & H1 & L1).
  destruct (FilterMapFields_rounds fields (map_to_list mapData) mapData)
    as (m2 & H2 & L2).
  unfold FilterMapFields. rewrite H1, H2. f_equal.
  apply map_eq. intros k. apply option_eq. intros v.
  rewrite L1, L2. split; intros [Hk Hall]; (split; [done|]);
    intros v' Hv'; apply Hall.
  - by rewrite Hperm.
  - by rewrite <- Hperm.
Qed.

(** The entries of [testMap] in the reverse order. *)
Lemma FilterMapFields_any_order_witness :
  foldM (λ (kv : string * iface) (mapData : ProjectionResult),
    if negb (containsField kv.1 ["field1"; "field3"])
    then Ok (delete kv.1 mapData) else
    isNil ← isNilInterface kv.2;
    if isNil : bool then Ok (delete kv.1 mapData) else Ok mapData)
    (reverse (map_to_list testMap)) testMap
  = FilterMapFields testMap ["field1"; "field3"].
Proof.
  apply (FilterMapFields_any_order testMap ["field1"; "field3"]).
  apply reverse_Permutation.
Defined.

(** X20. [FilterMapFields] leaves a map as it is exactly when every key
    of the map is listed and no value is a null reference. *)
Theorem FilterMapFields_unchanged (mapData : ProjectionResult)
    (fields : list string) :
  FilterMapFields mapData fields = Ok mapData ↔
  ∀ k v, mapData !! k = Some v → k ∈ fields ∧ ¬ nullReference v.
Proof.
  destruct (FilterMapFields_lookup mapData fields) as (m' & Hm' & Hl).
  rewrite Hm'. split.
  - intros [= ->] k v Hk. apply deleted_false. by apply (Hl k v).
  - intros Hall. f_equal. apply map_eq. intros k. apply option_eq.
    intros v. rewrite Hl. split; [by intros [? _]|].
    intros Hk. split; [done|]. apply deleted_false. by apply Hall.
Qed.

(** X21. [FilterMapFields] is idempotent: called again with the same
    list on the map it has filtered, it changes nothing. *)
Theorem FilterMapFields_idempotent (mapData mapData' : ProjectionResult)
    (fields : list string) :
  FilterMapFields mapData fields = Ok mapData' →
  FilterMapFields mapData' fields = Ok mapData'.
Proof.
  destruct (FilterMapFields_lookup mapData fields) as (m1 & Hm1 & L1).
  rewrite Hm1. intros [= ->].
  destruct (FilterMapFields_lookup mapData' fields) as (m2 & Hm2 & L2).
  rewrite Hm2. f_equal. apply map_eq. intros k. apply option_eq.
  intros v. rewrite L2. split; [by intros [? _]|].
  intros Hk. split; [done|]. by apply (L1 k v).
Qed.

(** The call of [TestFilterMapFields], made again on its result. *)
Lemma FilterMapFields_idempotent_witness :
  FilterMapFields {[ "field1" := Some (reflect.VNum reflect.NInt 1) ]}
    ["field1"; "field3"]
  = Ok {[ "field1" := Some (reflect.VNum reflect.NInt 1) ]}.
Proof.
  apply (FilterMapFields_idempotent testMap _ ["field1"; "field3"]).
  reflexivity.
Defined.

(** ** What the entries do to the result *)

(** A mapping of one key, when handled, inserts one pair. *)
Lemma serializeEntry_single_insert h name child model elem modelType
    (r r' : ProjectionResult) :
  serializeEntry h (SpecMap [(name, child)]) model elem modelType r = Ok r' →
  ∃ w x, r' = <[w := x]> r.
Proof.
  rewrite serializeEntry_nested_cons. intros H.
  apply bind_returns in H as (ft & _ & H).
  apply bind_returns in H as (w & _ & H).
  apply bind_returns in H as (fv & _ & H).
  apply bind_returns in H as (k & _ & H).
  apply bind_returns in H as (r1 & H & [= <-]).
  assert (∀ S, serializeArrayField S fv w r = Ok r1 →
               ∃ w x, r1 = <[w := x]> r) as Harr.
  { intros S HS. unfold serializeArrayField in HS.
    apply bind_returns in HS as (n & _ & HS).
    apply bind_returns in HS as (c & _ & [= <-]). by eexists _, _. }
  destruct k; try discriminate H; try (by eapply Harr).
  - apply bind_returns in H as (y & _ & H).
    apply bind_returns in H as (m & _ & [= <-]). by eexists _, _.
  - apply bind_returns in H as (a & _ & H).
    apply bind_returns in H as (y & _ & H).
    apply bind_returns in H as (m & _ & [= <-]). by eexists _, _.
Qed.

Lemma insert_grows (r : ProjectionResult) w x :
  dom r ⊆ dom (<[w := x]> r) ∧ size (<[w := x]> r) ≤ S (size r).
Proof.
  split; [apply dom_insert_subseteq|].
  rewrite map_size_insert. destruct (r !! w); simpl; lia.
Qed.

(** An entry, when handled, keeps the keys the result has and adds no
    more than [entryKeys]. *)
Lemma serializeEntry_grows h e model elem modelType
    (r r' : ProjectionResult) :
  serializeEntry h e model elem modelType r = Ok r' →
  dom r ⊆ dom r' ∧ size r' ≤ size r + entryKeys e.
Proof.
  destruct e as [name|f|m|k].
  - simpl. unfold serializeStrField. intros H.
    apply bind_returns in H as (fv & _ & H).
    apply bind_returns in H as (ft & _ & H).
    apply bind_returns in H as (w & _ & H).
    apply bind_returns in H as (x & _ & [= <-]).
    destruct (insert_grows r w x). split; [done | lia].
  - simpl. destruct (f h model) as [w x]. intros [= <-].
    destruct (insert_grows r w x). split; [done | lia].
  - revert r. induction m as [|[name child] m IH]; intros r.
    + intros [= <-]. simpl. split; [done | lia].
    + rewrite serializeEntry_nested_split. intros H.
      apply bind_returns in H as (r1 & H1 & H).
      apply serializeEntry_single_insert in H1 as (w & x & ->).
      destruct (IH _ H) as [Hdom Hsize].
      destruct (insert_grows r w x) as [Hdom1 Hsize1].
      simpl in *. split; [by etrans | lia].
  - simpl. by destruct k.
Qed.

Lemma foldM_grows h model elem modelType fields (r r' : ProjectionResult) :
  foldM (λ name result, serializeEntry h name model elem modelType result)
        fields r = Ok r' →
  dom r ⊆ dom r' ∧ size r' ≤ size r + sum_list (entryKeys <$> fields).
Proof.
  revert r. induction fields as [|e fields IH]; intros r.
  - intros [= <-]. simpl. split; [done | lia].
  - rewrite foldM_cons. intros H. apply bind_returns in H as (r1 & H1 & H).
    apply serializeEntry_grows in H1 as [Hdom1 Hsize1].
    destruct (IH _ H) as [Hdom Hsize]. rewrite fmap_cons.
    cbn [sum_list sum_list_with id]. split; [by etrans | lia].
Qed.

(** X22. [Serialize] only adds to its result, or overwrites: when it
    returns on a list, it returns on every prefix of the list, and the
    keys it has after the prefix are all in the final result. *)
Theorem Serialize_keeps_keys (h : heap) (model : iface)
    (pre post : list fieldSpec) (r : ProjectionResult) :
  Serialize h model (pre ++ post) = Ok r →
  ∃ r0 : ProjectionResult,
    Serialize h model pre = Ok r0 ∧ dom r0 ⊆ dom r.
Proof.
  rewrite !Serialize_unfold.
  destruct (reflect.IsNil (reflect.ValueOf model)) as [[|]|]; [| |done].
  - intros [= <-]. by exists ∅.
  - rewrite !bind_Ok.
    destruct (reflect.Elem h (reflect.ValueOf model)) as [elem|]; [|done].
    rewrite !bind_Ok.
    destruct (reflect.Value_Type elem) as [modelType|]; [|done].
    rewrite !bind_Ok, foldM_app. intros H.
    apply bind_returns in H as (r0 & Hpre & H).
    exists r0. split; [done|]. by apply foldM_grows in H as [Hdom _].
Qed.

(** The list of [TestSerializeFullStruct] and its first entry. *)
Lemma Serialize_keeps_keys_witness :
  ∃ r0 : ProjectionResult,
    Serialize {[ 1 := reflect.VStruct fullStruct ]} (handle (addr 1))
      [SpecString "Field1"] = Ok r0 ∧
    dom r0 ⊆ dom ({[ "field1" := Some (reflect.VString "foo");
                     "field2" := Some (reflect.VNum reflect.NInt 42) ]}
                  : ProjectionResult).
Proof.
  apply (Serialize_keeps_keys {[ 1 := reflect.VStruct fullStruct ]}
           (handle (addr 1)) [SpecString "Field1"] [SpecString "Field2"]).
  reflexivity.
Defined.

(** X23. The result of [Serialize] has at most one key for each leaf or
    computed entry of the list and each key of its mappings. *)
Theorem Serialize_size (h : heap) (model : iface) (fields : list fieldSpec)
    (r : ProjectionResult) :
  Serialize h model fields = Ok r →
  size r ≤ sum_list (entryKeys <$> fields).
Proof.
  rewrite Serialize_unfold.
  destruct (reflect.IsNil (reflect.ValueOf model)) as [[|]|]; [| |done].
  - intros [= <-]. rewrite map_size_empty. lia.
  - rewrite !bind_Ok.
    destruct (reflect.Elem h (reflect.ValueOf model)) as [elem|]; [|done].
    rewrite !bind_Ok.
    destruct (reflect.Value_Type elem) as [modelType|]; [|done].
    rewrite !bind_Ok. intros H. apply foldM_grows in H as [_ Hsize].
    by rewrite map_size_empty in Hsize.
Qed.

(** The call of [TestSerializeFullStruct]: two entries, two keys. *)
Lemma Serialize_size_witness :
  size ({[ "field1" := Some (reflect.VString "foo");
           "field2" := Some (reflect.VNum reflect.NInt 42) ]}
        : ProjectionResult) ≤ 2.
Proof.
  apply (Serialize_size {[ 1 := reflect.VStruct fullStruct ]}
           (handle (addr 1)) [SpecString "Field1"; SpecString "Field2"]).
  reflexivity.
Defined.
